(** * Cubism Web Framework: parameter registry and expression blending

    A shallow embedding of [CubismModel] (parameter / part registry,
    drawable colour overrides, snapshot and restore), of
    [CubismExpressionMotion] (parsing and per-frame blending of an
    expression into the accumulator) and of [CubismMoc.create].

    JavaScript numbers holding parameter values, weights and times are
    modelled as exact rationals ([Qc], canonical fractions, so that [=]
    is the equality of values); rounding of IEEE doubles and of the
    [Float32Array] stores is not modelled.  Indices are naturals, except
    where the code can produce [NaN] (see [JsIndex]).  Identifiers are
    assumed not to be names of [Object.prototype] members, so that the
    [in] operator on the plain-object tables is own-key membership. *)

From Stdlib Require Import QArith Qcanon Lqa.
From stdpp Require Import base numbers option list gmap strings.

Local Open Scope Qc_scope.

(** ** Numbers *)

Abbreviation number := Qc (only parsing).

(** [a < b] on numbers, as a boolean. *)
Definition num_ltb (a b : number) : bool := bool_decide (a < b).

(** [a == b] on numbers. *)
Definition num_eqb (a b : number) : bool := bool_decide (a = b).

(** A JavaScript number used as an index or property key: a natural, or
    [NaN] (what [n + undefined] evaluates to). *)
Inductive JsIndex : Type :=
  | Idx (n : nat)
  | NaN.

Global Instance JsIndex_eq_dec : EqDecision JsIndex.
Proof. solve_decision. Defined.

Definition JsIndex_to_option (x : JsIndex) : option nat :=
  match x with Idx n => Some n | NaN => None end.

Definition JsIndex_of_option (x : option nat) : JsIndex :=
  match x with Some n => Idx n | None => NaN end.

Global Instance JsIndex_countable : Countable JsIndex.
Proof.
  apply (inj_countable' JsIndex_to_option JsIndex_of_option).
  by intros [].
Defined.

(** [n + x] where [x] is the result of a property read: [None] is
    [undefined], and [n + undefined] is [NaN]. *)
Definition js_add (n : nat) (x : option JsIndex) : JsIndex :=
  match x with
  | Some (Idx k) => Idx (n + k)
  | Some NaN => NaN
  | None => NaN
  end.

(** ** The model *)

Record CubismTextureColor : Type := mkColor {
  R : number;
  G : number;
  B : number;
  A : number
}.

Record DrawableColorData : Type := mkDrawableColorData {
  isOverwritten : bool;
  Color : CubismTextureColor
}.

(** The part of [Live2DCubismCore.Model] the framework reads and never
    writes: counts, identifiers, ranges and the drawables' colours (flat
    RGBA arrays, four numbers per drawable). *)
Record CoreModel : Type := mkCoreModel {
  parameters_count : nat;
  parameters_ids : list string;
  parameters_minimumValues : list number;
  parameters_maximumValues : list number;
  parameters_values : list number;
  parts_count : nat;
  parts_ids : list string;
  parts_opacities : list number;
  drawables_count : nat;
  drawables_ids : list string;
  drawables_multiplyColors : list number;
  drawables_screenColors : list number
}.

(** [CubismModel].  [_parameterValues] and [_partOpacities] are the core's
    own typed arrays ([initialize] aliases them), so the live values are
    held here and [parameters_values] is only their initial content. *)
Record CubismModel : Type := mkCubismModel {
  _model : CoreModel;
  _parameterValues : list number;
  _partOpacities : list number;
  _parameterIds : list string;
  _partIds : list string;
  _drawableIds : list string;
  _savedParameters : list number;
  _notExistParameterId : gmap string nat;
  _notExistParameterValues : gmap nat number;
  _notExistPartId : gmap string JsIndex;
  _notExistPartOpacities : gmap JsIndex number;
  _isOverwrittenModelMultiplyColors : bool;
  _isOverwrittenModelScreenColors : bool;
  _userMultiplyColors : list DrawableColorData;
  _userScreenColors : list DrawableColorData
}.

(** Field updates. *)
Definition set_parameterValues (v : list number) (m : CubismModel) :=
  mkCubismModel (_model m) v (_partOpacities m) (_parameterIds m)
    (_partIds m) (_drawableIds m) (_savedParameters m)
    (_notExistParameterId m) (_notExistParameterValues m)
    (_notExistPartId m) (_notExistPartOpacities m)
    (_isOverwrittenModelMultiplyColors m)
    (_isOverwrittenModelScreenColors m)
    (_userMultiplyColors m) (_userScreenColors m).

Definition set_savedParameters (v : list number) (m : CubismModel) :=
  mkCubismModel (_model m) (_parameterValues m) (_partOpacities m)
    (_parameterIds m) (_partIds m) (_drawableIds m) v
    (_notExistParameterId m) (_notExistParameterValues m)
    (_notExistPartId m) (_notExistPartOpacities m)
    (_isOverwrittenModelMultiplyColors m)
    (_isOverwrittenModelScreenColors m)
    (_userMultiplyColors m) (_userScreenColors m).

Definition set_notExistParameter
    (ids : gmap string nat) (vals : gmap nat number) (m : CubismModel) :=
  mkCubismModel (_model m) (_parameterValues m) (_partOpacities m)
    (_parameterIds m) (_partIds m) (_drawableIds m) (_savedParameters m)
    ids vals
    (_notExistPartId m) (_notExistPartOpacities m)
    (_isOverwrittenModelMultiplyColors m)
    (_isOverwrittenModelScreenColors m)
    (_userMultiplyColors m) (_userScreenColors m).

Definition set_notExistPart
    (ids : gmap string JsIndex) (vals : gmap JsIndex number)
    (m : CubismModel) :=
  mkCubismModel (_model m) (_parameterValues m) (_partOpacities m)
    (_parameterIds m) (_partIds m) (_drawableIds m) (_savedParameters m)
    (_notExistParameterId m) (_notExistParameterValues m)
    ids vals
    (_isOverwrittenModelMultiplyColors m)
    (_isOverwrittenModelScreenColors m)
    (_userMultiplyColors m) (_userScreenColors m).

Definition set_overwriteFlags (mul scr : bool) (m : CubismModel) :=
  mkCubismModel (_model m) (_parameterValues m) (_partOpacities m)
    (_parameterIds m) (_partIds m) (_drawableIds m) (_savedParameters m)
    (_notExistParameterId m) (_notExistParameterValues m)
    (_notExistPartId m) (_notExistPartOpacities m)
    mul scr
    (_userMultiplyColors m) (_userScreenColors m).

Definition set_userColors
    (mul scr : list DrawableColorData) (m : CubismModel) :=
  mkCubismModel (_model m) (_parameterValues m) (_partOpacities m)
    (_parameterIds m) (_partIds m) (_drawableIds m) (_savedParameters m)
    (_notExistParameterId m) (_notExistParameterValues m)
    (_notExistPartId m) (_notExistPartOpacities m)
    (_isOverwrittenModelMultiplyColors m)
    (_isOverwrittenModelScreenColors m)
    mul scr.

(** *** Construction *)

(** The body shared by [setMultiplyColorByRGBA] and [setScreenColorByRGBA]:
    the four colour components of entry [index] are assigned. *)
Definition setColorByRGBA (l : list DrawableColorData) (index : nat)
    (r g b a : number) : option (list DrawableColorData) :=
  d ← l !! index;
  Some (<[index := mkDrawableColorData (isOverwritten d) (mkColor r g b a)]> l).

(** The constructor followed by [initialize]: identifier lists are the
    first [count] identifiers of the core, every drawable gets a multiply
    colour [(1,1,1,1)] and a screen colour [(0,0,0,1)] with both flags
    [false], and all the tables of unknown identifiers are empty. *)
Definition newCubismModel (core : CoreModel) : CubismModel :=
  mkCubismModel core
    (parameters_values core) (parts_opacities core)
    (take (parameters_count core) (parameters_ids core))
    (take (parts_count core) (parts_ids core))
    (take (drawables_count core) (drawables_ids core))
    []
    ∅ ∅ ∅ ∅
    false false
    (replicate (drawables_count core)
       (mkDrawableColorData false (mkColor 1 1 1 1)))
    (replicate (drawables_count core)
       (mkDrawableColorData false (mkColor 0 0 0 1))).

(** *** Parameters *)

Definition getParameterCount (m : CubismModel) : nat :=
  parameters_count (_model m).

(** The linear scan of [getParameterIndex] / [getPartIndex] /
    [getDrawableIndex]: the first position below [count] whose identifier
    equals [id]. *)
Fixpoint scanIds (id : string) (ids : list string) (count index : nat)
    {struct count} : option nat :=
  match count with
  | O => None
  | S count' =>
      match ids with
      | [] => None
      | x :: ids' =>
          if bool_decide (id = x) then Some index
          else scanIds id ids' count' (S index)
      end
  end.

(** [getParameterIndex]: a real index, an already assigned shadow index,
    or a new shadow index [count + Object.keys(_notExistParameterId).length]
    whose shadow value is initialised to [0]. *)
Definition getParameterIndex (m : CubismModel) (parameterId : string)
    : nat * CubismModel :=
  let idCount := parameters_count (_model m) in
  match scanIds parameterId (_parameterIds m) idCount 0 with
  | Some parameterIndex => (parameterIndex, m)
  | None =>
      match _notExistParameterId m !! parameterId with
      | Some parameterIndex => (parameterIndex, m)
      | None =>
          let parameterIndex :=
            (parameters_count (_model m) + size (_notExistParameterId m))%nat in
          (parameterIndex,
           set_notExistParameter
             (<[parameterId := parameterIndex]> (_notExistParameterId m))
             (<[parameterIndex := 0]> (_notExistParameterValues m)) m)
      end
  end.

(** [getParameterValueByIndex].  For an index that is neither a shadow
    index nor inside the value array the code returns [undefined] (after a
    failed [CSM_ASSERT]); that read is given as [0] here, and
    [getParameterIndex_defined] shows that it is never taken for an index
    handed out by [getParameterIndex]. *)
Definition getParameterValueByIndex (m : CubismModel) (parameterIndex : nat)
    : number :=
  match _notExistParameterValues m !! parameterIndex with
  | Some v => v
  | None => default 0 (_parameterValues m !! parameterIndex)
  end.

Definition getParameterValueById (m : CubismModel) (parameterId : string)
    : number * CubismModel :=
  let '(parameterIndex, m') := getParameterIndex m parameterId in
  (getParameterValueByIndex m' parameterIndex, m').

(** The two range tests at the head of the real branch of
    [setParameterValueByIndex]; a missing bound ([undefined]) compares
    [false]. *)
Definition clampToRange (m : CubismModel) (parameterIndex : nat)
    (value : number) : number :=
  let value :=
    match parameters_maximumValues (_model m) !! parameterIndex with
    | Some mx => if num_ltb mx value then mx else value
    | None => value
    end in
  match parameters_minimumValues (_model m) !! parameterIndex with
  | Some mn => if num_ltb value mn then mn else value
  | None => value
  end.

(** [setParameterValueByIndex].  A write outside a typed array is ignored. *)
Definition setParameterValueByIndex (m : CubismModel) (parameterIndex : nat)
    (value weight : number) : CubismModel :=
  match _notExistParameterValues m !! parameterIndex with
  | Some old =>
      set_notExistParameter (_notExistParameterId m)
        (<[parameterIndex :=
             if num_eqb weight 1 then value
             else old * (1 - weight) + value * weight]>
           (_notExistParameterValues m)) m
  | None =>
      let value := clampToRange m parameterIndex value in
      match _parameterValues m !! parameterIndex with
      | Some old =>
          set_parameterValues
            (<[parameterIndex :=
                 if num_eqb weight 1 then value
                 else old * (1 - weight) + value * weight]>
               (_parameterValues m)) m
      | None => m
      end
  end.

Definition setParameterValueById (m : CubismModel) (parameterId : string)
    (value weight : number) : CubismModel :=
  let '(index, m') := getParameterIndex m parameterId in
  setParameterValueByIndex m' index value weight.

Definition addParameterValueByIndex (m : CubismModel) (parameterIndex : nat)
    (value weight : number) : CubismModel :=
  setParameterValueByIndex m parameterIndex
    (getParameterValueByIndex m parameterIndex + value * weight) 1.

Definition addParameterValueById (m : CubismModel) (parameterId : string)
    (value weight : number) : CubismModel :=
  let '(index, m') := getParameterIndex m parameterId in
  addParameterValueByIndex m' index value weight.

Definition multiplyParameterValueByIndex (m : CubismModel)
    (parameterIndex : nat) (value weight : number) : CubismModel :=
  setParameterValueByIndex m parameterIndex
    (getParameterValueByIndex m parameterIndex * (1 + (value - 1) * weight)) 1.

Definition multiplyParameterValueById (m : CubismModel) (parameterId : string)
    (value weight : number) : CubismModel :=
  let '(index, m') := getParameterIndex m parameterId in
  multiplyParameterValueByIndex m' index value weight.

(** *** Snapshot and restore *)

(** The body of the loop of [saveParameters]: entry [i] of the snapshot is
    overwritten when it existed when the call started, and pushed otherwise.
    ([_parameterValues[i]] is in range whenever the core's count is the
    length of its value array; outside it the read is given as [0].) *)
Definition saveStep (values : list number) (savedParameterCount : nat)
    (saved : list number) (i : nat) : list number :=
  let v := default 0 (values !! i) in
  if bool_decide (i < savedParameterCount)%nat then <[i := v]> saved
  else saved ++ [v].

Definition saveParameters (m : CubismModel) : CubismModel :=
  let parameterCount := parameters_count (_model m) in
  let savedParameterCount := length (_savedParameters m) in
  set_savedParameters
    (fold_left (saveStep (_parameterValues m) savedParameterCount)
       (seq 0 parameterCount) (_savedParameters m))
    m.

(** The body of the loop of [loadParameters]. *)
Definition loadStep (saved : list number) (values : list number) (i : nat)
    : list number :=
  match saved !! i with
  | Some v => <[i := v]> values
  | None => values
  end.

(** [loadParameters]: the first [min count saved.length] values are copied
    back. *)
Definition loadParameters (m : CubismModel) : CubismModel :=
  let parameterCount := parameters_count (_model m) in
  let savedParameterCount := length (_savedParameters m) in
  let parameterCount :=
    if bool_decide (savedParameterCount < parameterCount)%nat
    then savedParameterCount else parameterCount in
  set_parameterValues
    (fold_left (loadStep (_savedParameters m))
       (seq 0 parameterCount) (_parameterValues m))
    m.

(** *** Parts *)

Definition getPartCount (m : CubismModel) : nat := parts_count (_model m).

(** [getPartIndex].  The new shadow index is
    [partCount + this._notExistPartId.length]: a property read on the
    plain object [_notExistPartId], which is [undefined] unless an
    identifier spelled [length] was stored before. *)
Definition getPartIndex (m : CubismModel) (partId : string)
    : JsIndex * CubismModel :=
  let partCount := parts_count (_model m) in
  match scanIds partId (_partIds m) partCount 0 with
  | Some partIndex => (Idx partIndex, m)
  | None =>
      match _notExistPartId m !! partId with
      | Some partIndex => (partIndex, m)
      | None =>
          let partIndex :=
            js_add partCount (_notExistPartId m !! "length"%string) in
          (partIndex,
           set_notExistPart
             (<[partId := partIndex]> (_notExistPartId m))
             (<[partIndex := 0]> (_notExistPartOpacities m)) m)
      end
  end.

(** *** Drawable colours

    An access [a[i].f] with [i] outside [a] raises a [TypeError]; the
    accessors below return [None] there. *)

Definition getOverwriteFlagForModelMultiplyColors (m : CubismModel) : bool :=
  _isOverwrittenModelMultiplyColors m.

Definition getOverwriteFlagForModelScreenColors (m : CubismModel) : bool :=
  _isOverwrittenModelScreenColors m.

Definition setOverwriteFlagForModelMultiplyColors (m : CubismModel)
    (value : bool) : CubismModel :=
  set_overwriteFlags value (_isOverwrittenModelScreenColors m) m.

Definition setOverwriteFlagForModelScreenColors (m : CubismModel)
    (value : bool) : CubismModel :=
  set_overwriteFlags (_isOverwrittenModelMultiplyColors m) value m.

Definition getOverwriteFlagForDrawableMultiplyColors (m : CubismModel)
    (drawableindex : nat) : option bool :=
  isOverwritten <$> _userMultiplyColors m !! drawableindex.

(** As written: the flag is read from [_userMultiplyColors]. *)
Definition getOverwriteFlagForDrawableScreenColors (m : CubismModel)
    (drawableindex : nat) : option bool :=
  isOverwritten <$> _userMultiplyColors m !! drawableindex.

Definition setOverwriteFlagForDrawableMultiplyColors (m : CubismModel)
    (drawableindex : nat) (value : bool) : option CubismModel :=
  d ← _userMultiplyColors m !! drawableindex;
  Some (set_userColors
          (<[drawableindex := mkDrawableColorData value (Color d)]>
             (_userMultiplyColors m))
          (_userScreenColors m) m).

Definition setOverwriteFlagForDrawableScreenColors (m : CubismModel)
    (drawableindex : nat) (value : bool) : option CubismModel :=
  d ← _userScreenColors m !! drawableindex;
  Some (set_userColors (_userMultiplyColors m)
          (<[drawableindex := mkDrawableColorData value (Color d)]>
             (_userScreenColors m)) m).

Definition setMultiplyColorByRGBA (m : CubismModel) (index : nat)
    (r g b a : number) : option CubismModel :=
  l ← setColorByRGBA (_userMultiplyColors m) index r g b a;
  Some (set_userColors l (_userScreenColors m) m).

Definition setScreenColorByRGBA (m : CubismModel) (index : nat)
    (r g b a : number) : option CubismModel :=
  l ← setColorByRGBA (_userScreenColors m) index r g b a;
  Some (set_userColors (_userMultiplyColors m) l m).

(** Four consecutive entries of a flat colour array; a component outside
    the array ([undefined]) is given as [0]. *)
Definition readColor (colors : list number) (drawableIndex : nat)
    : CubismTextureColor :=
  let index := (drawableIndex * 4)%nat in
  mkColor (default 0 (colors !! index))
          (default 0 (colors !! (index + 1)%nat))
          (default 0 (colors !! (index + 2)%nat))
          (default 0 (colors !! (index + 3)%nat)).

Definition getDrawableMultiplyColor (m : CubismModel) (drawableIndex : nat)
    : CubismTextureColor :=
  readColor (drawables_multiplyColors (_model m)) drawableIndex.

Definition getDrawableScreenColor (m : CubismModel) (drawableIndex : nat)
    : CubismTextureColor :=
  readColor (drawables_screenColors (_model m)) drawableIndex.

(** [a || b]: [b] is only evaluated when [a] is [false]. *)
Definition getMultiplyColor (m : CubismModel) (index : nat)
    : option CubismTextureColor :=
  if getOverwriteFlagForModelMultiplyColors m
  then Color <$> _userMultiplyColors m !! index
  else
    flag ← getOverwriteFlagForDrawableMultiplyColors m index;
    if (flag : bool) then Color <$> _userMultiplyColors m !! index
    else Some (getDrawableMultiplyColor m index).

Definition getScreenColor (m : CubismModel) (index : nat)
    : option CubismTextureColor :=
  if getOverwriteFlagForModelScreenColors m
  then Color <$> _userScreenColors m !! index
  else
    flag ← getOverwriteFlagForDrawableScreenColors m index;
    if (flag : bool) then Color <$> _userScreenColors m !! index
    else Some (getDrawableScreenColor m index).

(** ** Expression motions *)

Inductive ExpressionBlendType : Type :=
  | Additive
  | Multiply
  | Overwrite.

Global Instance ExpressionBlendType_eq_dec : EqDecision ExpressionBlendType.
Proof. solve_decision. Defined.

Record ExpressionParameter : Type := mkExpressionParameter {
  parameterId : string;
  blendType : ExpressionBlendType;
  value : number
}.

(** One accumulator entry ([ExpressionParameterValue], declared by the
    expression manager): the identifier, which may be [null], and the three
    channels. *)
Record ExpressionParameterValue : Type := mkExpressionParameterValue {
  epv_parameterId : option string;
  additiveValue : number;
  multiplyValue : number;
  overwriteValue : number
}.

(** One entry of [Parameters] in an expression file; [Blend] may be
    absent. *)
Record ExpressionJSONParameter : Type := mkExpressionJSONParameter {
  Id : string;
  Value : number;
  Blend : option string
}.

Record ExpressionJSON : Type := mkExpressionJSON {
  FadeInTime : option number;
  FadeOutTime : option number;
  Parameters : option (list ExpressionJSONParameter)
}.

(** [CubismExpressionMotion]: its own two fields, and the three fields of
    the base class [ACubismMotion] that this file reads or writes. *)
Record CubismExpressionMotion : Type := mkCubismExpressionMotion {
  _fadeInSeconds : number;
  _fadeOutSeconds : number;
  _offsetSeconds : number;
  _parameters : list ExpressionParameter;
  _fadeWeight : number
}.

(** Modelled from the spec: the playback instance [CubismMotionQueueEntry],
    whose class is not part of these sources; the five fields are the ones
    the spec lists and the blend step reads or writes through accessors. *)
Record CubismMotionQueueEntry : Type := mkCubismMotionQueueEntry {
  _available : bool;
  _started : bool;
  _startTimeSeconds : number;
  _fadeInStartTimeSeconds : number;
  _endTimeSeconds : number
}.

Definition isAvailable (e : CubismMotionQueueEntry) : bool := _available e.
Definition isStarted (e : CubismMotionQueueEntry) : bool := _started e.
Definition getStartTime (e : CubismMotionQueueEntry) : number :=
  _startTimeSeconds e.
Definition getEndTime (e : CubismMotionQueueEntry) : number :=
  _endTimeSeconds e.
Definition setIsStarted (e : CubismMotionQueueEntry) (f : bool) :=
  mkCubismMotionQueueEntry (_available e) f (_startTimeSeconds e)
    (_fadeInStartTimeSeconds e) (_endTimeSeconds e).
Definition setStartTime (e : CubismMotionQueueEntry) (t : number) :=
  mkCubismMotionQueueEntry (_available e) (_started e) t
    (_fadeInStartTimeSeconds e) (_endTimeSeconds e).
Definition setFadeInStartTime (e : CubismMotionQueueEntry) (t : number) :=
  mkCubismMotionQueueEntry (_available e) (_started e) (_startTimeSeconds e)
    t (_endTimeSeconds e).
Definition setEndTime (e : CubismMotionQueueEntry) (t : number) :=
  mkCubismMotionQueueEntry (_available e) (_started e) (_startTimeSeconds e)
    (_fadeInStartTimeSeconds e) t.

Definition DefaultFadeTime : number := 1.
Definition DefaultAdditiveValue : number := 0.
Definition DefaultMultiplyValue : number := 1.

(** *** Parsing *)

(** The blend operator of one entry: [!param.Blend] holds for an absent
    field and for the empty string. *)
Definition parseBlend (blend : option string) : ExpressionBlendType :=
  match blend with
  | None => Additive
  | Some s =>
      if bool_decide (s = EmptyString) then Additive
      else if bool_decide (s = "Add"%string) then Additive
      else if bool_decide (s = "Multiply"%string) then Multiply
      else if bool_decide (s = "Overwrite"%string) then Overwrite
      else Additive
  end.

Definition parseParameter (param : ExpressionJSONParameter)
    : ExpressionParameter :=
  mkExpressionParameter (Id param) (parseBlend (Blend param)) (Value param).

(** [parse]: nothing happens for a missing document; otherwise both fade
    times are set and one item per entry is pushed, in order. *)
Definition parse (self : CubismExpressionMotion) (json : option ExpressionJSON)
    : CubismExpressionMotion :=
  match json with
  | None => self
  | Some json =>
      mkCubismExpressionMotion
        (default DefaultFadeTime (FadeInTime json))
        (default DefaultFadeTime (FadeOutTime json))
        (_offsetSeconds self)
        (_parameters self ++ (parseParameter <$> default [] (Parameters json)))
        (_fadeWeight self)
  end.

(** [create]: [base] is the motion as the constructors leave it (the base
    class sets the inherited fields; this class sets [_parameters = []] and
    [_fadeWeight = 0]). *)
Definition create (base : CubismExpressionMotion)
    (json : option ExpressionJSON) : CubismExpressionMotion :=
  parse (mkCubismExpressionMotion (_fadeInSeconds base) (_fadeOutSeconds base)
           (_offsetSeconds base) [] 0) json.

(** *** Blending *)

Definition getExpressionParameters (self : CubismExpressionMotion) :=
  _parameters self.

Definition getFadeWeight (self : CubismExpressionMotion) : number :=
  _fadeWeight self.

Definition setFadeWeight (self : CubismExpressionMotion) (w : number) :=
  mkCubismExpressionMotion (_fadeInSeconds self) (_fadeOutSeconds self)
    (_offsetSeconds self) (_parameters self) w.

Definition calculateValue (self : CubismExpressionMotion)
    (source destination : number) : number :=
  source * (1 - _fadeWeight self) + destination * _fadeWeight self.

(** The inner loop over [expressionParameters]: the first entry with the
    accumulator entry's identifier ([parameterIndex] stays [-1] when there
    is none). *)
Fixpoint findExpressionParameter (id : string)
    (expressionParameters : list ExpressionParameter)
    : option ExpressionParameter :=
  match expressionParameters with
  | [] => None
  | p :: rest =>
      if bool_decide (id = parameterId p) then Some p
      else findExpressionParameter id rest
  end.

(** The [switch] on the blend type: the triple
    [(newAdditiveValue, newMultiplyValue, newOverwriteValue)].  The
    [default: return] arm is not reachable for a value of the enumeration. *)
Definition newValues (p : ExpressionParameter) (currentParameterValue : number)
    : number * number * number :=
  match blendType p with
  | Additive => (value p, DefaultMultiplyValue, currentParameterValue)
  | Multiply => (DefaultAdditiveValue, value p, currentParameterValue)
  | Overwrite => (DefaultAdditiveValue, DefaultMultiplyValue, value p)
  end.

(** The body of the outer loop after the model has been read, for an entry
    whose identifier is [id].  The entry's overwrite channel has been
    assigned the model's current value before anything else is computed
    from it (the chained assignment that defines [currentParameterValue]). *)
Definition blendChannels (self : CubismExpressionMotion)
    (expressionIndex : nat) (currentParameterValue : number) (id : string)
    (e : ExpressionParameterValue) : ExpressionParameterValue :=
  let e := mkExpressionParameterValue (Some id) (additiveValue e)
             (multiplyValue e) currentParameterValue in
  match findExpressionParameter id (getExpressionParameters self) with
  | None =>
      if bool_decide (expressionIndex = 0%nat) then
        mkExpressionParameterValue (Some id) DefaultAdditiveValue
          DefaultMultiplyValue currentParameterValue
      else
        mkExpressionParameterValue (Some id)
          (calculateValue self (additiveValue e) DefaultAdditiveValue)
          (calculateValue self (multiplyValue e) DefaultMultiplyValue)
          (calculateValue self (overwriteValue e) currentParameterValue)
  | Some p =>
      let '(newAdditiveValue, newMultiplyValue, newOverwriteValue) :=
        newValues p currentParameterValue in
      if bool_decide (expressionIndex = 0%nat) then
        mkExpressionParameterValue (Some id) newAdditiveValue
          newMultiplyValue newOverwriteValue
      else
        mkExpressionParameterValue (Some id)
          (additiveValue e * (1 - _fadeWeight self)
           + newAdditiveValue * _fadeWeight self)
          (multiplyValue e * (1 - _fadeWeight self)
           + newMultiplyValue * _fadeWeight self)
          (overwriteValue e * (1 - _fadeWeight self)
           + newOverwriteValue * _fadeWeight self)
  end.

(** The body of the outer loop for one accumulator entry: an entry without
    identifier is skipped; otherwise the model's current value is read by
    identifier (which may register a shadow entry) and the channels are
    updated. *)
Definition blendEntry (self : CubismExpressionMotion) (expressionIndex : nat)
    (model : CubismModel) (e : ExpressionParameterValue)
    : CubismModel * ExpressionParameterValue :=
  match epv_parameterId e with
  | None => (model, e)
  | Some id =>
      let '(currentParameterValue, model) := getParameterValueById model id in
      (model, blendChannels self expressionIndex currentParameterValue id e)
  end.

(** The outer loop, in array order; the model is threaded through because
    resolving an identifier may register a shadow entry. *)
Fixpoint blendEntries (self : CubismExpressionMotion) (expressionIndex : nat)
    (model : CubismModel) (values : list ExpressionParameterValue)
    : CubismModel * list ExpressionParameterValue :=
  match values with
  | [] => (model, [])
  | e :: rest =>
      let '(model, e') := blendEntry self expressionIndex model e in
      let '(model, rest') := blendEntries self expressionIndex model rest in
      (model, e' :: rest')
  end.

(** Everything a call of [calculateExpressionParameters] can change. *)
Record Frame : Type := mkFrame {
  frame_motion : CubismExpressionMotion;
  frame_model : CubismModel;
  frame_entry : CubismMotionQueueEntry;
  frame_values : list ExpressionParameterValue
}.

Section Blending.

(** The two members of [ACubismMotion] that the blend step calls and
    that are declared outside these sources.  [updateFadeWeight] returns
    the weight and the entry as it leaves it. *)
Variable getDuration : CubismExpressionMotion -> number.
Variable updateFadeWeight :
  CubismExpressionMotion -> CubismMotionQueueEntry -> number ->
  number * CubismMotionQueueEntry.

(** The start-up block run for an entry that has not started. *)
Definition startEntry (self : CubismExpressionMotion)
    (userTimeSeconds : number) (motionQueueEntry : CubismMotionQueueEntry)
    : CubismMotionQueueEntry :=
  if isStarted motionQueueEntry then motionQueueEntry
  else
    let e := setIsStarted motionQueueEntry true in
    let e := setStartTime e (userTimeSeconds - _offsetSeconds self) in
    let e := setFadeInStartTime e userTimeSeconds in
    let duration := getDuration self in
    if num_ltb (getEndTime e) 0 then
      setEndTime e
        (if bool_decide (duration ≤ 0) then - 1
         else getStartTime e + duration)
    else e.

Definition calculateExpressionParameters (self : CubismExpressionMotion)
    (model : CubismModel) (userTimeSeconds : number)
    (motionQueueEntry : CubismMotionQueueEntry)
    (expressionParameterValues : list ExpressionParameterValue)
    (expressionIndex : nat) : Frame :=
  if negb (isAvailable motionQueueEntry) then
    mkFrame self model motionQueueEntry expressionParameterValues
  else
    let motionQueueEntry := startEntry self userTimeSeconds motionQueueEntry in
    let '(w, motionQueueEntry) :=
      updateFadeWeight self motionQueueEntry userTimeSeconds in
    let self := setFadeWeight self w in
    let '(model, values) :=
      blendEntries self expressionIndex model expressionParameterValues in
    mkFrame self model motionQueueEntry values.

End Blending.

(** ** Moc loading *)

(** The outcome of a call that may [throw]. *)
Inductive Result (T : Type) : Type :=
  | Returns (x : T)
  | Throws (message : string).
Arguments Returns {T} x.
Arguments Throws {T} message.

Section Moc.

(** The core's side: the type of a loaded Moc, the consistency check
    (a number, [1] for a consistent payload), the loader (a falsy result
    is [None]) and the version query. *)
Variable CoreMoc : Type.
Variable core_hasMocConsistency : list Byte.byte -> Z.
Variable core_fromArrayBuffer : list Byte.byte -> option CoreMoc.
Variable core_csmGetMocVersion : CoreMoc -> list Byte.byte -> Z.

Record CubismMoc : Type := mkCubismMoc {
  _moc : CoreMoc;
  _modelCount : Z;
  _mocVersion : Z
}.

Definition hasMocConsistency (mocBytes : list Byte.byte) : bool :=
  let isConsistent := core_hasMocConsistency mocBytes in
  if bool_decide (isConsistent = 1%Z) then true else false.

(** The private constructor. *)
Definition newCubismMoc (moc : CoreMoc) : CubismMoc := mkCubismMoc moc 0 0.

Definition getMocVersion (self : CubismMoc) : Z := _mocVersion self.

Definition CubismMoc_create (mocBytes : list Byte.byte)
    (shouldCheckMocConsistency : bool) : Result CubismMoc :=
  if shouldCheckMocConsistency && negb (hasMocConsistency mocBytes) then
    Throws "Inconsistent MOC3."
  else
    match core_fromArrayBuffer mocBytes with
    | Some moc =>
        let cubismMoc := newCubismMoc moc in
        Returns (mkCubismMoc (_moc cubismMoc) (_modelCount cubismMoc)
                   (core_csmGetMocVersion moc mocBytes))
    | None => Throws "Failed to CubismMoc.create()."
    end.

End Moc.

(** ** Well-formed models and write sequences *)

(** The invariant of every model built by [newCubismModel] from a core whose
    parameter count is the length of its value array: shadow indices lie in
    [count, count + number of unknown identifiers), and the table of shadow
    values has exactly the assigned shadow indices as keys. *)
Record wf_model (m : CubismModel) : Prop := mk_wf_model {
  wf_count :
    parameters_count (_model m) = length (_parameterValues m);
  wf_shadow_range : ∀ id idx,
    _notExistParameterId m !! id = Some idx →
    (parameters_count (_model m) ≤ idx
     < parameters_count (_model m) + size (_notExistParameterId m))%nat;
  wf_shadow_dom : ∀ idx,
    is_Some (_notExistParameterValues m !! idx) ↔
    ∃ id, _notExistParameterId m !! id = Some idx
}.

(** A real parameter index: inside the value array and not a key of the
    shadow table. *)
Definition isRealIndex (m : CubismModel) (i : nat) : Prop :=
  (i < parameters_count (_model m))%nat ∧ _notExistParameterValues m !! i = None.

(** Every shadow index stored for a part is [NaN]. *)
Definition partShadowsNaN (m : CubismModel) : Prop :=
  ∀ id i, _notExistPartId m !! id = Some i → i = NaN.

(** The three by-index writers, as data, so that sequences of writes can be
    quantified over. *)
Inductive ParameterWrite : Type :=
  | WriteSet (parameterIndex : nat) (value weight : number)
  | WriteAdd (parameterIndex : nat) (value weight : number)
  | WriteMultiply (parameterIndex : nat) (value weight : number).

Definition applyWrite (m : CubismModel) (w : ParameterWrite) : CubismModel :=
  match w with
  | WriteSet i v wt => setParameterValueByIndex m i v wt
  | WriteAdd i v wt => addParameterValueByIndex m i v wt
  | WriteMultiply i v wt => multiplyParameterValueByIndex m i v wt
  end.

Definition applyWrites (m : CubismModel) (ws : list ParameterWrite)
    : CubismModel :=
  fold_left applyWrite ws m.

(** What the writers leave alone: the core data, the snapshot and the
    length of the value array. *)
Definition sameShape (m m' : CubismModel) : Prop :=
  _model m' = _model m
  ∧ _savedParameters m' = _savedParameters m
  ∧ length (_parameterValues m') = length (_parameterValues m).

(** Two models answer every read by identifier alike. *)
Definition sameReads (m m' : CubismModel) : Prop :=
  ∀ id, (getParameterValueById m' id).1 = (getParameterValueById m id).1.

(** The contribution an expression declares for a parameter whose current
    model value is [cur], as (additive, multiply, overwrite): its operator
    sets its own channel to the declared value and leaves the others
    neutral; a parameter the expression does not reference contributes the
    neutral defaults [(0, 1, cur)]. *)
Definition declaredContribution (self : CubismExpressionMotion) (id : string)
    (cur : number) : number * number * number :=
  match findExpressionParameter id (_parameters self) with
  | Some p =>
      match blendType p with
      | Additive => (value p, 1, cur)
      | Multiply => (0, value p, cur)
      | Overwrite => (0, 1, value p)
      end
  | None => (0, 1, cur)
  end.

(** ** Sample data *)

Definition q (n : Z) (d : positive) : number := Q2Qc (n # d).

(** Two parameters ([ParamA] in [-1, 1] at [0], [ParamB] in [0, 1] at
    [1/4]), two parts and one drawable whose core screen colour is
    [(1/2, 1/2, 1/2, 1)]. *)
Definition sampleCore : CoreModel :=
  mkCoreModel
    2 ["ParamA"; "ParamB"]%string [- 1; 0] [1; 1] [0; q 1 4]
    2 ["PartA"; "PartB"]%string [1; 1]
    1 ["ArtMesh0"]%string [1; 1; 1; 1] [q 1 2; q 1 2; q 1 2; 1].

Definition sampleModel : CubismModel := newCubismModel sampleCore.

(** An expression that references no parameter, and one that overwrites
    [ParamB] with [1/2]. *)
Definition emptyExpression : CubismExpressionMotion :=
  mkCubismExpressionMotion 0 0 0 [] 0.

Definition overwriteExpression : CubismExpressionMotion :=
  mkCubismExpressionMotion 0 0 0
    [mkExpressionParameter "ParamB" Overwrite (q 1 2)] 0.

Definition sampleEntry (available : bool) : CubismMotionQueueEntry :=
  mkCubismMotionQueueEntry available false 0 0 (- 1).

(** A timing collaborator that reports the fixed weight [w] and leaves the
    entry alone, and the base class's duration [-1]. *)
Definition constantFade (w : number) (_ : CubismExpressionMotion)
    (e : CubismMotionQueueEntry) (_ : number)
    : number * CubismMotionQueueEntry := (w, e).

Definition noDuration (_ : CubismExpressionMotion) : number := - 1.

Definition sampleValues : list ExpressionParameterValue :=
  [mkExpressionParameterValue (Some "ParamB"%string) (q 1 5) 2 (q 1 2);
   mkExpressionParameterValue None (q 3 1) (q 4 1) (q 5 1);
   mkExpressionParameterValue (Some "ParamZ"%string) 0 1 (q 7 1)].

(** An expression file with one entry per spelling of [Blend]. *)
Definition sampleJSON : ExpressionJSON :=
  mkExpressionJSON None (Some (q 1 2))
    (Some [mkExpressionJSONParameter "ParamA" 1 None;
           mkExpressionJSONParameter "ParamA" 1 (Some "Add"%string);
           mkExpressionJSONParameter "ParamB" 2 (Some "Multiply"%string);
           mkExpressionJSONParameter "ParamB" 0 (Some "Overwrite"%string);
           mkExpressionJSONParameter "ParamA" 1 (Some "multiply"%string)]).

(** A stand-in for the core's Moc functions: a payload is consistent when
    it is not empty, a loaded Moc is the payload's length, and empty
    payloads do not load; the version is [3]. *)
Definition sample_hasMocConsistency (mocBytes : list Byte.byte) : Z :=
  match mocBytes with [] => 0 | _ => 1 end.

Definition sample_fromArrayBuffer (mocBytes : list Byte.byte) : option nat :=
  match mocBytes with [] => None | _ => Some (length mocBytes) end.

Definition sample_csmGetMocVersion (moc : nat) (mocBytes : list Byte.byte)
    : Z := 3.

(** ** Further operations of the model *)

Definition set_partOpacities (v : list number) (m : CubismModel) :=
  mkCubismModel (_model m) (_parameterValues m) v (_parameterIds m)
    (_partIds m) (_drawableIds m) (_savedParameters m)
    (_notExistParameterId m) (_notExistParameterValues m)
    (_notExistPartId m) (_notExistPartOpacities m)
    (_isOverwrittenModelMultiplyColors m)
    (_isOverwrittenModelScreenColors m)
    (_userMultiplyColors m) (_userScreenColors m).

(** [setPartOpacityByIndex].  A write to a typed array at an index outside
    it, or at [NaN], is ignored. *)
Definition setPartOpacityByIndex (m : CubismModel) (partIndex : JsIndex)
    (opacity : number) : CubismModel :=
  match _notExistPartOpacities m !! partIndex with
  | Some _ =>
      set_notExistPart (_notExistPartId m)
        (<[partIndex := opacity]> (_notExistPartOpacities m)) m
  | None =>
      match partIndex with
      | Idx n => set_partOpacities (<[n := opacity]> (_partOpacities m)) m
      | NaN => m
      end
  end.

(** [getPartOpacityByIndex]; a read outside the array ([undefined]) is given
    as [0]. *)
Definition getPartOpacityByIndex (m : CubismModel) (partIndex : JsIndex)
    : number :=
  match _notExistPartOpacities m !! partIndex with
  | Some v => v
  | None =>
      match partIndex with
      | Idx n => default 0 (_partOpacities m !! n)
      | NaN => 0
      end
  end.



(** [getDrawableIndex]: the position of the identifier, or [-1]. *)
Definition getDrawableIndex (m : CubismModel) (drawableId : string) : Z :=
  match scanIds drawableId (_drawableIds m) (drawables_count (_model m)) 0 with
  | Some drawableIndex => Z.of_nat drawableIndex
  | None => (-1)%Z
  end.

(** A value passes both range tests of parameter [i] unchanged. *)
Definition inRange (m : CubismModel) (i : nat) (v : number) : Prop :=
  (∀ mx, parameters_maximumValues (_model m) !! i = Some mx → v ≤ mx)
  ∧ (∀ mn, parameters_minimumValues (_model m) !! i = Some mn → mn ≤ v).

Definition valuesInRange (m : CubismModel) : Prop :=
  ∀ i v, _parameterValues m !! i = Some v → inRange m i v.


(** Resolving a list of identifiers one after the other. *)
Definition resolveAll (m : CubismModel) (ids : list string) : CubismModel :=
  fold_left (fun m id => (getParameterIndex m id).2) ids m.


(** The second model has the registry of the first, possibly with more
    unknown identifiers. *)
Definition extendsRegistry (m m' : CubismModel) : Prop :=
  _model m' = _model m
  ∧ _parameterIds m' = _parameterIds m
  ∧ _notExistParameterId m ⊆ _notExistParameterId m'.

(** ** Applying an expression directly *)

(** The body of the loop of [doUpdateParameters] for one parameter. *)
Definition applyExpressionParameter (weight : number) (model : CubismModel)
    (parameter : ExpressionParameter) : CubismModel :=
  match blendType parameter with
  | Additive =>
      addParameterValueById model (parameterId parameter) (value parameter)
        weight
  | Multiply =>
      multiplyParameterValueById model (parameterId parameter)
        (value parameter) weight
  | Overwrite =>
      setParameterValueById model (parameterId parameter) (value parameter)
        weight
  end.

(** [doUpdateParameters]; the time and the queue entry are not used. *)
Definition doUpdateParameters (self : CubismExpressionMotion)
    (model : CubismModel) (userTimeSeconds weight : number)
    (motionQueueEntry : CubismMotionQueueEntry) : CubismModel :=
  fold_left (applyExpressionParameter weight) (_parameters self) model.

(** ** Models of a Moc *)

Section MocModels.

Variable CoreMoc : Type.

(** [Live2DCubismCore.Model.fromMoc]; a falsy result is [None]. *)
Variable core_fromMoc : CoreMoc -> option CoreModel.

(** [createModel]: the new model and the Moc with its counter advanced, or
    the error when the core yields no model. *)
Definition createModel (self : CubismMoc CoreMoc)
    : Result (CubismModel * CubismMoc CoreMoc) :=
  match core_fromMoc (_moc CoreMoc self) with
  | Some model =>
      Returns (newCubismModel model,
               mkCubismMoc CoreMoc (_moc CoreMoc self)
                 (_modelCount CoreMoc self + 1) (_mocVersion CoreMoc self))
  | None => Throws "Unknown error"
  end.

(** [deleteModel]: the counter goes down for any model that is not
    [null]. *)
Definition deleteModel (self : CubismMoc CoreMoc)
    (model : option CubismModel) : CubismMoc CoreMoc :=
  match model with
  | Some _ =>
      mkCubismMoc CoreMoc (_moc CoreMoc self)
        (_modelCount CoreMoc self - 1) (_mocVersion CoreMoc self)
  | None => self
  end.

End MocModels.

(** A stand-in for the core's model loader: Moc [0] does not load, every
    other Moc yields [sampleCore]. *)
Definition sample_fromMoc (moc : nat) : option CoreModel :=
  match moc with O => None | _ => Some sampleCore end.

(** * Properties *)

(** ** Identifier resolution *)

Lemma scanIds_range id ids count k i :
  scanIds id ids count k = Some i → (k ≤ i < k + count)%nat.
Proof.
  revert ids k. induction count as [|count IH]; intros ids k; simpl.
  - done.
  - destruct ids as [|x ids]; [done|].
    case_bool_decide.
    + intros [= <-]. lia.
    + intros Hi. apply IH in Hi. lia.
Qed.

Lemma newCubismModel_wf core :
  parameters_count core = length (parameters_values core) →
  wf_model (newCubismModel core).
Proof.
  intros Hlen. split; simpl.
  - done.
  - intros id idx Hid. by rewrite lookup_empty in Hid.
  - intros idx. rewrite lookup_empty. split.
    + by intros [? ?].
    + intros [id Hid]. by rewrite lookup_empty in Hid.
Qed.

(** Resolving an identifier keeps the model well formed. *)
Lemma getParameterIndex_wf m id :
  wf_model m → wf_model (getParameterIndex m id).2.
Proof.
  intros [Hc Hr Hd]. unfold getParameterIndex.
  destruct (scanIds _ _ _ _); [by split|].
  destruct (_notExistParameterId m !! id) eqn:Hid; [by split|].
  split; simpl.
  - done.
  - intros id' idx. rewrite map_size_insert_None by done.
    rewrite lookup_insert. case_decide.
    + intros [= <-]. lia.
    + intros Hid'. apply Hr in Hid'. lia.
  - intros idx. rewrite lookup_insert. case_decide as Hidx.
    + subst idx. split; [|by eauto].
      intros _. exists id. by rewrite lookup_insert_eq.
    + rewrite Hd. split.
      * intros [id' Hid']. exists id'.
        rewrite lookup_insert_ne; [done|]. by intros ->; rewrite Hid in Hid'.
      * intros [id' Hid']. exists id'.
        rewrite lookup_insert in Hid'. case_decide; [|done].
        congruence.
Qed.

(** The index handed out is a key of the shadow table or lies inside the
    value array, so the read in [getParameterValueByIndex] is defined. *)
Lemma getParameterIndex_defined m id :
  wf_model m →
  let '(i, m') := getParameterIndex m id in
  is_Some (_notExistParameterValues m' !! i)
  ∨ (_notExistParameterValues m' !! i = None
     ∧ is_Some (_parameterValues m' !! i)).
Proof.
  intros [Hc Hr Hd]. unfold getParameterIndex.
  destruct (scanIds _ _ _ _) as [i|] eqn:Hscan.
  - right. apply scanIds_range in Hscan. split.
    + apply eq_None_not_Some. rewrite Hd. intros [id' Hid'].
      apply Hr in Hid'. lia.
    + apply lookup_lt_is_Some. lia.
  - destruct (_notExistParameterId m !! id) as [i|] eqn:Hid.
    + left. apply Hd. by exists id.
    + left. simpl. rewrite lookup_insert_eq. by eauto.
Qed.

(** Shadow indices for parameters: an unknown identifier gets the real
    count plus the number of unknown identifiers seen so far, resolving it
    again returns the same index and changes nothing, and the next unknown
    identifier gets the next index. *)
Lemma getParameterIndex_shadow m id1 id2 :
  scanIds id1 (_parameterIds m) (parameters_count (_model m)) 0 = None →
  scanIds id2 (_parameterIds m) (parameters_count (_model m)) 0 = None →
  _notExistParameterId m !! id1 = None →
  _notExistParameterId m !! id2 = None →
  id1 ≠ id2 →
  let n := (parameters_count (_model m) + size (_notExistParameterId m))%nat in
  let '(i1, m1) := getParameterIndex m id1 in
  let '(i1', m1') := getParameterIndex m1 id1 in
  let '(i2, m2) := getParameterIndex m1' id2 in
  i1 = n ∧ i1' = n ∧ m1' = m1 ∧ i2 = S n
  ∧ _notExistParameterValues m1 !! n = Some 0.
Proof.
  intros Hs1 Hs2 Hn1 Hn2 Hne. unfold getParameterIndex.
  rewrite Hs1, Hn1. simpl. rewrite Hs1, lookup_insert_eq. simpl.
  rewrite Hs2, lookup_insert_ne, Hn2 by done.
  rewrite map_size_insert_None by done.
  rewrite lookup_insert_eq. repeat split; lia.
Qed.

(** Reading a parameter by identifier is not disturbed by resolving other
    identifiers first. *)
Lemma getParameterValueById_stable m id id' :
  wf_model m →
  (getParameterValueById (getParameterIndex m id).2 id').1
  = (getParameterValueById m id').1.
Proof.
  intros Hwf. pose proof Hwf as [Hc Hr Hd].
  unfold getParameterValueById, getParameterIndex.
  destruct (scanIds id _ _ _) as [i|] eqn:Hscan; [done|].
  destruct (_notExistParameterId m !! id) as [i|] eqn:Hid; [done|].
  simpl.
  destruct (scanIds id' _ _ _) as [i'|] eqn:Hscan'; simpl.
  - apply scanIds_range in Hscan'.
    unfold getParameterValueByIndex. simpl.
    rewrite lookup_insert_ne by lia. done.
  - rewrite lookup_insert. case_decide as Hidid'.
    + subst id'. rewrite Hid. simpl.
      unfold getParameterValueByIndex. simpl.
      by rewrite !lookup_insert_eq.
    + destruct (_notExistParameterId m !! id') as [i'|] eqn:Hid'; simpl.
      * unfold getParameterValueByIndex. simpl.
        apply Hr in Hid'. rewrite lookup_insert_ne by lia. done.
      * unfold getParameterValueByIndex. simpl.
        by rewrite !lookup_insert_eq.
Qed.

(** ** Writing a parameter value *)

(** Order facts on numbers are decided on the underlying fractions. *)
Ltac num_order :=
  repeat match goal with
  | |- @eq Qc _ _ => apply Qc_is_canon
  | H : ¬ Qclt _ _ |- _ => apply Qcnot_lt_le in H
  | H : ¬ Qcle _ _ |- _ => apply Qcnot_le_lt in H
  end;
  unfold Qclt, Qcle in *; simpl in *; lra.

(** On a parameter whose range is not empty, the two tests of
    [clampToRange] clamp to [[minimum, maximum]]. *)
Lemma clampToRange_spec m i v mn mx :
  parameters_minimumValues (_model m) !! i = Some mn →
  parameters_maximumValues (_model m) !! i = Some mx →
  mn ≤ mx →
  (mx < v → clampToRange m i v = mx)
  ∧ (v < mn → clampToRange m i v = mn)
  ∧ (mn ≤ v ≤ mx → clampToRange m i v = v)
  ∧ mn ≤ clampToRange m i v ≤ mx.
Proof.
  intros Hmn Hmx Hle. unfold clampToRange, num_ltb. rewrite Hmn, Hmx.
  repeat case_bool_decide; repeat split; intros; try num_order.
Qed.

Lemma setParameterValueByIndex_real m i v w old :
  isRealIndex m i →
  _parameterValues m !! i = Some old →
  _parameterValues (setParameterValueByIndex m i v w) !! i
  = Some (if num_eqb w 1 then clampToRange m i v
          else old * (1 - w) + clampToRange m i v * w).
Proof.
  intros [_ Hshadow] Hold. unfold setParameterValueByIndex.
  rewrite Hshadow, Hold. simpl.
  apply list_lookup_insert_eq. by eapply lookup_lt_Some.
Qed.

Lemma setParameterValueByIndex_shadow m i v w old :
  _notExistParameterValues m !! i = Some old →
  _notExistParameterValues (setParameterValueByIndex m i v w) !! i
  = Some (if num_eqb w 1 then v else old * (1 - w) + v * w)
  ∧ _parameterValues (setParameterValueByIndex m i v w) = _parameterValues m.
Proof.
  intros Hold. unfold setParameterValueByIndex. rewrite Hold. simpl.
  by rewrite lookup_insert_eq.
Qed.

(** C1 (as amended): on a real index the value is first limited by the two
    range tests and only then stored: outright for weight [1], and as
    [stored * (1 - w) + clamped * w], with no further clamping, for any other
    weight; on a parameter with a non-empty range the limited value is the
    clamp to [[minimum, maximum]].  On a shadow index the value is stored
    (weight [1]) or interpolated (any other weight) and never clamped. *)
Theorem setParameterValueByIndex_clamps_before_blending
    (m : CubismModel) (i : nat) (v w old : number) :
  (isRealIndex m i → _parameterValues m !! i = Some old →
     (w = 1 →
        _parameterValues (setParameterValueByIndex m i v w) !! i
        = Some (clampToRange m i v))
     ∧ (w ≠ 1 →
        _parameterValues (setParameterValueByIndex m i v w) !! i
        = Some (old * (1 - w) + clampToRange m i v * w))
     ∧ (∀ mn mx,
          parameters_minimumValues (_model m) !! i = Some mn →
          parameters_maximumValues (_model m) !! i = Some mx →
          mn ≤ mx →
          (mx < v → clampToRange m i v = mx)
          ∧ (v < mn → clampToRange m i v = mn)
          ∧ (mn ≤ v ≤ mx → clampToRange m i v = v)))
  ∧ (_notExistParameterValues m !! i = Some old →
       (w = 1 →
          _notExistParameterValues (setParameterValueByIndex m i v w) !! i
          = Some v)
       ∧ (w ≠ 1 →
          _notExistParameterValues (setParameterValueByIndex m i v w) !! i
          = Some (old * (1 - w) + v * w))).
Proof.
  split.
  - intros Hreal Hold.
    pose proof (setParameterValueByIndex_real m i v w old Hreal Hold) as H.
    unfold num_eqb in H. repeat split.
    + intros Hw. by rewrite bool_decide_eq_true_2 in H.
    + intros Hw. by rewrite bool_decide_eq_false_2 in H.
    + by eapply clampToRange_spec.
    + by eapply clampToRange_spec.
    + by eapply clampToRange_spec.
  - intros Hold.
    destruct (setParameterValueByIndex_shadow m i v w old Hold) as [H _].
    unfold num_eqb in H. split.
    + intros Hw. by rewrite bool_decide_eq_true_2 in H.
    + intros Hw. by rewrite bool_decide_eq_false_2 in H.
Qed.

(** The writers, the snapshot and the restore keep a model well formed, so
    [wf_model] holds in every state reached from [newCubismModel]. *)
Lemma setParameterValueByIndex_wf m i v w :
  wf_model m → wf_model (setParameterValueByIndex m i v w).
Proof.
  intros [Hc Hr Hd]. unfold setParameterValueByIndex.
  destruct (_notExistParameterValues m !! i) as [old|] eqn:Hi.
  - split; simpl; [done | done |].
    intros idx. rewrite <- Hd, lookup_insert. case_decide; [|done].
    subst idx. rewrite Hi. split; eauto.
  - destruct (_parameterValues m !! i); [|by split].
    split; simpl; [by rewrite length_insert | done | done].
Qed.

Lemma applyWrites_wf ws m : wf_model m → wf_model (applyWrites m ws).
Proof.
  revert m. induction ws as [|w ws IH]; intros m Hwf; [done|].
  apply IH. destruct w; by apply setParameterValueByIndex_wf.
Qed.

Lemma saveParameters_wf m : wf_model m → wf_model (saveParameters m).
Proof. intros [Hc Hr Hd]. by split. Qed.

(** Closed goals on numbers: both sides are evaluated. *)
Ltac num_eval :=
  repeat match goal with
  | |- _ ∧ _ => split
  | |- Some _ = Some _ => f_equal
  | |- @eq Qc _ _ => apply Qc_is_canon; vm_compute; reflexivity
  | |- @eq (option Qc) _ _ => vm_compute; f_equal
  | |- Qclt _ _ => vm_compute; reflexivity
  | |- Qcle _ _ => vm_compute; discriminate
  | |- ¬ (@eq Qc _ _) =>
      let H := fresh in
      intros H; apply (f_equal this) in H; vm_compute in H; discriminate H
  | |- ¬ (@eq (option Qc) _ _) =>
      let H := fresh in
      intros H; vm_compute in H; discriminate H
  end.

Lemma sampleModel_wf : wf_model sampleModel.
Proof. by apply newCubismModel_wf. Qed.

(** C1, as stated, fails: [ParamA] has range [[-1, 1]] and holds [0];
    writing [5] with weight [1/2] stores [0 * 1/2 + 1 * 1/2 = 1/2] (the
    value is clamped to [1] first), whereas clamping the interpolated value
    [0 * 1/2 + 5 * 1/2 = 5/2] would store [1]. *)
Lemma setParameterValueByIndex_interpolation_counterexample :
  isRealIndex sampleModel 0
  ∧ _parameterValues sampleModel !! 0%nat = Some 0
  ∧ q 1 2 < 1
  ∧ _parameterValues
      (setParameterValueByIndex sampleModel 0 (q 5 1) (q 1 2)) !! 0%nat
    = Some (q 1 2)
  ∧ clampToRange sampleModel 0 (0 * (1 - q 1 2) + q 5 1 * q 1 2) = 1
  ∧ _parameterValues
      (setParameterValueByIndex sampleModel 0 (q 5 1) (q 1 2)) !! 0%nat
    ≠ Some (clampToRange sampleModel 0 (0 * (1 - q 1 2) + q 5 1 * q 1 2)).
Proof.
  split; [split; [simpl; lia | reflexivity]|].
  split; [reflexivity|].
  num_eval.
Qed.

Lemma setParameterValueByIndex_clamps_witness :
  _parameterValues (setParameterValueByIndex sampleModel 0 (q 5 1) 1) !! 0%nat
  = Some 1
  ∧ _parameterValues
      (setParameterValueByIndex sampleModel 0 (q (-5) 1) 1) !! 0%nat
    = Some (- 1)
  ∧ _parameterValues
      (setParameterValueByIndex sampleModel 0 (q 5 1) (q 1 2)) !! 0%nat
    = Some (0 * (1 - q 1 2) + 1 * q 1 2)
  ∧ _notExistParameterValues
      (setParameterValueByIndex (getParameterIndex sampleModel "ParamZ").2
         2 (q 5 1) 1) !! 2%nat
    = Some (q 5 1).
Proof.
  assert (Hreal : isRealIndex sampleModel 0)
    by (split; [simpl; lia | reflexivity]).
  assert (Hold : _parameterValues sampleModel !! 0%nat = Some 0)
    by reflexivity.
  assert (Hmn : parameters_minimumValues (_model sampleModel) !! 0%nat
                = Some (- 1)) by reflexivity.
  assert (Hmx : parameters_maximumValues (_model sampleModel) !! 0%nat
                = Some 1) by reflexivity.
  assert (Hle : - 1 ≤ 1) by (vm_compute; discriminate).
  split; [|split; [|split]].
  - destruct (setParameterValueByIndex_clamps_before_blending
                sampleModel 0 (q 5 1) 1 0) as [H _].
    destruct (H Hreal Hold) as (H1 & _ & Hc).
    destruct (Hc _ _ Hmn Hmx Hle) as (Hhi & _ & _).
    rewrite (H1 eq_refl), Hhi; [reflexivity | vm_compute; reflexivity].
  - destruct (setParameterValueByIndex_clamps_before_blending
                sampleModel 0 (q (-5) 1) 1 0) as [H _].
    destruct (H Hreal Hold) as (H1 & _ & Hc).
    destruct (Hc _ _ Hmn Hmx Hle) as (_ & Hlo & _).
    rewrite (H1 eq_refl), Hlo; [reflexivity | vm_compute; reflexivity].
  - destruct (setParameterValueByIndex_clamps_before_blending
                sampleModel 0 (q 5 1) (q 1 2) 0) as [H _].
    destruct (H Hreal Hold) as (_ & H2 & Hc).
    destruct (Hc _ _ Hmn Hmx Hle) as (Hhi & _ & _).
    rewrite H2, Hhi; [reflexivity | vm_compute; reflexivity | ].
    intros Heq. apply (f_equal this) in Heq. vm_compute in Heq.
    discriminate Heq.
  - destruct (setParameterValueByIndex_clamps_before_blending
                (getParameterIndex sampleModel "ParamZ").2 2 (q 5 1) 1 0)
      as [_ H].
    destruct (H eq_refl) as [H1 _]. exact (H1 eq_refl).
Defined.

(** ** Shadow indices of parts *)

Lemma getPartIndex_unknown m partId :
  partShadowsNaN m →
  scanIds partId (_partIds m) (parts_count (_model m)) 0 = None →
  (getPartIndex m partId).1 = NaN ∧ partShadowsNaN (getPartIndex m partId).2.
Proof.
  intros Hnan Hscan. unfold getPartIndex. rewrite Hscan.
  destruct (_notExistPartId m !! partId) as [i|] eqn:Hid; simpl.
  - split; [by eapply Hnan | done].
  - assert (Hadd : js_add (parts_count (_model m))
                     (_notExistPartId m !! "length"%string) = NaN).
    { destruct (_notExistPartId m !! "length"%string) as [l|] eqn:Hl;
        [|done]. by rewrite (Hnan _ _ Hl). }
    rewrite Hadd. split; [done|].
    intros id i. simpl. rewrite lookup_insert. case_decide.
    + by intros [= <-].
    + apply Hnan.
Qed.


(** C4, evaluated for parts: on a model with two parts and no unknown part
    seen yet, the first unknown part identifier does not get index [2] but
    [NaN] ([partCount + undefined]); resolved again it is [NaN], and a
    second, different unknown identifier is given [NaN] as well, so the two
    share one slot of the shadow opacity table. *)
Theorem getPartIndex_shadow_index_is_NaN :
  getPartCount sampleModel = 2%nat
  ∧ _notExistPartId sampleModel = ∅
  ∧ (getPartIndex sampleModel "PartX").1 = NaN
  ∧ (getPartIndex (getPartIndex sampleModel "PartX").2 "PartX").1 = NaN
  ∧ (getPartIndex (getPartIndex sampleModel "PartX").2 "PartY").1 = NaN
  ∧ (getPartIndex sampleModel "PartX").1 ≠ Idx 2
  ∧ dom (_notExistPartOpacities
           (getPartIndex (getPartIndex sampleModel "PartX").2 "PartY").2)
    = {[ NaN ]}.
Proof. repeat split; done. Qed.

(** ** Drawable screen colours *)

(** The per-drawable screen flag is written to [_userScreenColors] but read
    from [_userMultiplyColors]: setting it never changes what
    [getScreenColor] returns. *)
Lemma setOverwriteFlagForDrawableScreenColors_unobserved m m' i j value :
  setOverwriteFlagForDrawableScreenColors m i value = Some m' →
  getScreenColor m' j = getScreenColor m j.
Proof.
  unfold setOverwriteFlagForDrawableScreenColors.
  destruct (_userScreenColors m !! i) as [d|] eqn:Hd; [|done].
  intros [= <-]. unfold getScreenColor, getOverwriteFlagForModelScreenColors,
    getOverwriteFlagForDrawableScreenColors. simpl.
  assert (Hcol : Color <$> <[i := mkDrawableColorData value (Color d)]>
                             (_userScreenColors m) !! j
                 = Color <$> _userScreenColors m !! j).
  { destruct (decide (i = j)) as [->|Hne].
    - rewrite list_lookup_insert_eq by (by eapply lookup_lt_Some).
      by rewrite Hd.
    - by rewrite list_lookup_insert_ne. }
  by rewrite Hcol.
Qed.

(** C5, evaluated: with every model-wide flag [false], setting the screen
    flag of drawable [0] leaves [getScreenColor 0] at the core's colour
    [(1/2, 1/2, 1/2, 1)] instead of the user colour [(0, 0, 0, 1)]; and
    once the multiply flag of the drawable is set, clearing the screen flag
    leaves [getScreenColor 0] at the user colour. *)
Theorem getScreenColor_reads_multiply_flag :
  getOverwriteFlagForModelScreenColors sampleModel = false
  ∧ (∃ m1,
       setOverwriteFlagForDrawableScreenColors sampleModel 0 true = Some m1
       ∧ isOverwritten <$> _userScreenColors m1 !! 0%nat = Some true
       ∧ Color <$> _userScreenColors m1 !! 0%nat = Some (mkColor 0 0 0 1)
       ∧ getScreenColor m1 0 = Some (getDrawableScreenColor m1 0)
       ∧ getScreenColor m1 0 = Some (mkColor (q 1 2) (q 1 2) (q 1 2) 1))
  ∧ (∃ m1 m2,
       setOverwriteFlagForDrawableMultiplyColors sampleModel 0 true = Some m1
       ∧ setOverwriteFlagForDrawableScreenColors m1 0 false = Some m2
       ∧ isOverwritten <$> _userScreenColors m2 !! 0%nat = Some false
       ∧ getScreenColor m2 0 = Some (mkColor 0 0 0 1)).
Proof.
  split; [done|]. split.
  - eexists. repeat split; reflexivity.
  - eexists. eexists. repeat split; reflexivity.
Qed.

(** ** Snapshot and restore *)

Lemma saveLoop_spec (vals saved0 : list number) n :
  let r := fold_left (saveStep vals (length saved0)) (seq 0 n) saved0 in
  length r = (length saved0 `max` n)%nat
  ∧ (∀ i, (i < n)%nat → r !! i = Some (default 0 (vals !! i)))
  ∧ (∀ i, (n ≤ i)%nat → r !! i = saved0 !! i).
Proof.
  cbv zeta. induction n as [|n IH].
  - simpl. repeat split; (lia || done).
  - rewrite seq_S, fold_left_app. simpl.
    destruct IH as (Hlen & Hlt & Hge).
    set (r := fold_left _ (seq 0 n) saved0) in *.
    unfold saveStep. case_bool_decide as Hn.
    + repeat split.
      * rewrite length_insert. lia.
      * intros i Hi. destruct (decide (i = n)) as [->|Hne].
        -- apply list_lookup_insert_eq. lia.
        -- rewrite list_lookup_insert_ne by done. apply Hlt. lia.
      * intros i Hi. rewrite list_lookup_insert_ne by lia. apply Hge. lia.
    + assert (Hr : length r = n) by lia.
      repeat split.
      * rewrite length_app. simpl. lia.
      * intros i Hi. destruct (decide (i = n)) as [->|Hne].
        -- rewrite lookup_app_r by lia. by rewrite Hr, Nat.sub_diag.
        -- rewrite lookup_app_l by lia. apply Hlt. lia.
      * intros i Hi. rewrite !lookup_ge_None_2; [done | lia |].
        rewrite length_app. simpl. lia.
Qed.

Lemma loadLoop_spec (saved0 vals : list number) n :
  (n ≤ length saved0)%nat → (n ≤ length vals)%nat →
  let r := fold_left (loadStep saved0) (seq 0 n) vals in
  length r = length vals
  ∧ (∀ i, (i < n)%nat → r !! i = saved0 !! i)
  ∧ (∀ i, (n ≤ i)%nat → r !! i = vals !! i).
Proof.
  cbv zeta. induction n as [|n IH]; intros Hs Hv.
  - simpl. repeat split; (lia || done).
  - rewrite seq_S, fold_left_app. simpl.
    destruct IH as (Hlen & Hlt & Hge); [lia | lia |].
    set (r := fold_left _ (seq 0 n) vals) in *.
    unfold loadStep.
    destruct (saved0 !! n) as [v|] eqn:Hn.
    + repeat split.
      * by rewrite length_insert.
      * intros i Hi. destruct (decide (i = n)) as [->|Hne].
        -- rewrite Hn. apply list_lookup_insert_eq. lia.
        -- rewrite list_lookup_insert_ne by done. apply Hlt. lia.
      * intros i Hi. rewrite list_lookup_insert_ne by lia. apply Hge. lia.
    + apply lookup_ge_None_1 in Hn. lia.
Qed.

Lemma setParameterValueByIndex_sameShape m i v w :
  sameShape m (setParameterValueByIndex m i v w).
Proof.
  unfold setParameterValueByIndex, sameShape.
  destruct (_notExistParameterValues m !! i); simpl; [done|].
  destruct (_parameterValues m !! i); simpl; [|done].
  by rewrite length_insert.
Qed.

Lemma applyWrite_sameShape m w : sameShape m (applyWrite m w).
Proof. destruct w; apply setParameterValueByIndex_sameShape. Qed.

Lemma applyWrites_sameShape ws m : sameShape m (applyWrites m ws).
Proof.
  revert m. induction ws as [|w ws IH]; intros m; simpl.
  - by unfold sameShape.
  - destruct (applyWrite_sameShape m w) as (H1 & H2 & H3).
    destruct (IH (applyWrite m w)) as (H1' & H2' & H3').
    unfold applyWrites in *. repeat split; congruence.
Qed.

Lemma saveParameters_snapshot m :
  parameters_count (_model m) = length (_parameterValues m) →
  length (_savedParameters (saveParameters m))
  = (length (_savedParameters m) `max` parameters_count (_model m))%nat
  ∧ ∀ i, (i < parameters_count (_model m))%nat →
         _savedParameters (saveParameters m) !! i = _parameterValues m !! i.
Proof.
  intros Hcount.
  destruct (saveLoop_spec (_parameterValues m) (_savedParameters m)
              (parameters_count (_model m))) as (Hlen & Hlt & _).
  split; [exact Hlen|].
  intros i Hi. unfold saveParameters. cbn [_savedParameters set_savedParameters].
  rewrite Hlt by done.
  destruct (_parameterValues m !! i) eqn:Hv; [done|].
  apply lookup_ge_None_1 in Hv. lia.
Qed.

Lemma loadParameters_values m :
  (parameters_count (_model m) ≤ length (_savedParameters m))%nat →
  (parameters_count (_model m) ≤ length (_parameterValues m))%nat →
  length (_parameterValues (loadParameters m)) = length (_parameterValues m)
  ∧ ∀ i, (i < parameters_count (_model m))%nat →
         _parameterValues (loadParameters m) !! i = _savedParameters m !! i.
Proof.
  intros Hs Hv. unfold loadParameters.
  cbn [_parameterValues set_parameterValues].
  rewrite bool_decide_eq_false_2 by lia.
  destruct (loadLoop_spec (_savedParameters m) (_parameterValues m)
              (parameters_count (_model m)) Hs Hv) as (Hlen & Hlt & _).
  by split.
Qed.

Lemma loadParameters_wf m :
  wf_model m →
  (parameters_count (_model m) ≤ length (_savedParameters m))%nat →
  wf_model (loadParameters m).
Proof.
  intros [Hc Hr Hd] Hs.
  destruct (loadParameters_values m) as [Hlen _]; [done | lia |].
  split; [|done|done]. rewrite Hlen. exact Hc.
Qed.

(** C6: after [saveParameters], any sequence of by-index writes followed by
    [loadParameters] gives back the value array as it was when the snapshot
    was taken.  The snapshot's first [count] entries are the real values;
    neither call touches the table of shadow values, so a shadow value
    written in between is still there after the restore. *)
Theorem loadParameters_restores_saved_values
    (m : CubismModel) (ws : list ParameterWrite) :
  parameters_count (_model m) = length (_parameterValues m) →
  let snapshot := saveParameters m in
  let written := applyWrites snapshot ws in
  let restored := loadParameters written in
  _parameterValues restored = _parameterValues m
  ∧ take (parameters_count (_model m)) (_savedParameters snapshot)
    = _parameterValues m
  ∧ length (_savedParameters snapshot)
    = (length (_savedParameters m) `max` parameters_count (_model m))%nat
  ∧ _notExistParameterValues snapshot = _notExistParameterValues m
  ∧ _notExistParameterValues restored = _notExistParameterValues written.
Proof.
  intros Hcount snapshot written restored.
  destruct (saveParameters_snapshot m Hcount) as [Hslen Hsnap].
  fold snapshot in Hslen, Hsnap.
  destruct (applyWrites_sameShape ws snapshot) as (Hmodel & Hsaved & Hlen).
  fold written in Hmodel, Hsaved, Hlen.
  assert (Hm : _model snapshot = _model m) by reflexivity.
  assert (Hv : _parameterValues snapshot = _parameterValues m) by reflexivity.
  destruct (loadParameters_values written) as [Hrlen Hrest].
  { rewrite Hmodel, Hsaved, Hm. lia. }
  { rewrite Hmodel, Hlen, Hm, Hv. lia. }
  fold restored in Hrlen, Hrest.
  rewrite Hmodel, Hm, Hsaved in Hrest.
  repeat split; try done.
  - apply list_eq. intros i.
    destruct (decide (i < parameters_count (_model m))%nat) as [Hi|Hi].
    + rewrite Hrest by done. by apply Hsnap.
    + rewrite !lookup_ge_None_2; [done | lia |].
      rewrite Hrlen, Hlen, Hv. lia.
  - apply list_eq. intros i. rewrite lookup_take.
    case_decide as Hi.
    + by apply Hsnap.
    + symmetry. apply lookup_ge_None_2. lia.
Qed.

Lemma loadParameters_restores_witness :
  let m := (getParameterIndex sampleModel "ParamZ").2 in
  let ws := [WriteSet 0 1 1; WriteAdd 1 1 (q 1 2); WriteMultiply 0 2 1;
             WriteSet 2 (q 5 1) 1] in
  _parameterValues (applyWrites (saveParameters m) ws) ≠ _parameterValues m
  ∧ _parameterValues (loadParameters (applyWrites (saveParameters m) ws))
    = [0; q 1 4]
  ∧ _notExistParameterValues
      (loadParameters (applyWrites (saveParameters m) ws)) !! 2%nat
    = Some (q 5 1).
Proof.
  cbv zeta.
  destruct (loadParameters_restores_saved_values
              (getParameterIndex sampleModel "ParamZ").2
              [WriteSet 0 1 1; WriteAdd 1 1 (q 1 2); WriteMultiply 0 2 1;
               WriteSet 2 (q 5 1) 1] eq_refl)
    as (Hvalues & _ & _ & _ & Hshadow).
  split; [|split].
  - intros H. vm_compute in H. discriminate H.
  - rewrite Hvalues. reflexivity.
  - rewrite Hshadow. reflexivity.
Defined.

(** ** Blending an expression into the accumulator *)

Lemma sameReads_step m0 m id :
  wf_model m → sameReads m0 m → sameReads m0 (getParameterIndex m id).2.
Proof.
  intros Hwf Hreads id'.
  rewrite getParameterValueById_stable by done. apply Hreads.
Qed.

(** One entry: the model stays well formed and answers reads as before,
    and the entry's new channels only depend on the model through the read
    of the entry's own identifier. *)
Lemma blendEntry_step self idx m0 m e :
  wf_model m → sameReads m0 m →
  wf_model (blendEntry self idx m e).1
  ∧ sameReads m0 (blendEntry self idx m e).1
  ∧ (blendEntry self idx m e).2 = (blendEntry self idx m0 e).2.
Proof.
  intros Hwf Hreads. unfold blendEntry.
  destruct (epv_parameterId e) as [id|]; [|done].
  pose proof (Hreads id) as Hid.
  pose proof (getParameterIndex_wf m id Hwf) as Hwf'.
  pose proof (sameReads_step m0 m id Hwf Hreads) as Hreads'.
  unfold getParameterValueById in *.
  destruct (getParameterIndex m id) as [i m'].
  destruct (getParameterIndex m0 id) as [i0 m0'].
  simpl in *. by rewrite Hid.
Qed.

Lemma blendEntries_length self idx m values :
  length (blendEntries self idx m values).2 = length values.
Proof.
  revert m. induction values as [|e rest IH]; intros m; simpl; [done|].
  destruct (blendEntry self idx m e) as [m1 e'].
  specialize (IH m1). destruct (blendEntries self idx m1 rest) as [m2 rest'].
  simpl in *. by rewrite IH.
Qed.

(** Every entry of the result is the loop body applied to the entry at the
    same position, as if it were the first to read the model. *)
Lemma blendEntries_lookup self idx m0 m values i e :
  wf_model m → sameReads m0 m →
  values !! i = Some e →
  (blendEntries self idx m values).2 !! i = Some (blendEntry self idx m0 e).2.
Proof.
  revert m i. induction values as [|e0 rest IH]; intros m i Hwf Hreads Hi;
    [done|]. simpl.
  destruct (blendEntry_step self idx m0 m e0 Hwf Hreads) as (Hwf1 & Hr1 & He).
  destruct (blendEntry self idx m e0) as [m1 e'] eqn:Hstep. simpl in *.
  specialize (IH m1). destruct (blendEntries self idx m1 rest) as [m2 rest'].
  destruct i as [|i]; simpl in *.
  - injection Hi as <-. by rewrite He.
  - by apply IH.
Qed.

(** The loop leaves the model well formed. *)
Lemma blendEntries_wf self idx m values :
  wf_model m → wf_model (blendEntries self idx m values).1.
Proof.
  revert m. induction values as [|e rest IH]; intros m Hwf; [done|]. simpl.
  destruct (blendEntry_step self idx m m e Hwf (λ _, eq_refl)) as (Hwf1 & _).
  destruct (blendEntry self idx m e) as [m1 e']. simpl in *.
  specialize (IH m1 Hwf1).
  by destruct (blendEntries self idx m1 rest) as [m2 rest'].
Qed.

(** An entry without identifier comes out of the loop as it went in. *)
Lemma blendEntries_lookup_null self idx m values i e :
  values !! i = Some e → epv_parameterId e = None →
  (blendEntries self idx m values).2 !! i = Some e.
Proof.
  revert m i. induction values as [|e0 rest IH]; intros m i Hi Hnull;
    [done|]. simpl.
  destruct (blendEntry self idx m e0) as [m1 e'] eqn:Hstep.
  specialize (IH m1). destruct (blendEntries self idx m1 rest) as [m2 rest'].
  destruct i as [|i]; simpl in *.
  - injection Hi as ->. unfold blendEntry in Hstep. rewrite Hnull in Hstep.
    by injection Hstep as _ <-.
  - by apply IH.
Qed.

Lemma sameReads_refl m : sameReads m m.
Proof. by intros id. Qed.

Section BlendingProperties.

Variable getDuration : CubismExpressionMotion → number.
Variable updateFadeWeight :
  CubismExpressionMotion → CubismMotionQueueEntry → number →
  number * CubismMotionQueueEntry.

Abbreviation calculate :=
  (calculateExpressionParameters getDuration updateFadeWeight).

(** For an available instance the stored fade weight is the one the timing
    collaborator returns for the started entry, and the accumulator is the
    result of the loop run with that weight. *)
Lemma calculate_available self model t entry values idx :
  isAvailable entry = true →
  let w := (updateFadeWeight self (startEntry getDuration self t entry) t).1 in
  getFadeWeight (frame_motion (calculate self model t entry values idx)) = w
  ∧ frame_values (calculate self model t entry values idx)
    = (blendEntries (setFadeWeight self w) idx model values).2.
Proof.
  intros Hav. unfold calculateExpressionParameters. rewrite Hav. simpl.
  destruct (updateFadeWeight self _ t) as [w e']. simpl.
  destruct (blendEntries _ idx model values) as [m' vs]. done.
Qed.

Lemma calculate_unavailable self model t entry values idx :
  isAvailable entry = false →
  calculate self model t entry values idx = mkFrame self model entry values.
Proof.
  intros Hav. unfold calculateExpressionParameters. by rewrite Hav.
Qed.

(** C7: for an instance that is not available the call returns its inputs:
    the accumulator, the model, the instance's fields and the stored fade
    weight are all unchanged. *)
Theorem calculateExpressionParameters_unavailable
    (self : CubismExpressionMotion) (model : CubismModel) (t : number)
    (entry : CubismMotionQueueEntry)
    (values : list ExpressionParameterValue) (idx : nat) :
  isAvailable entry = false →
  calculate self model t entry values idx = mkFrame self model entry values.
Proof. apply calculate_unavailable. Qed.

(** C10: an accumulator entry whose identifier is [null] keeps its three
    channels, whatever the expression index, the fade weight and the state
    of the instance. *)
Theorem calculateExpressionParameters_skips_null
    (self : CubismExpressionMotion) (model : CubismModel) (t : number)
    (entry : CubismMotionQueueEntry)
    (values : list ExpressionParameterValue) (idx i : nat)
    (e : ExpressionParameterValue) :
  values !! i = Some e → epv_parameterId e = None →
  frame_values (calculate self model t entry values idx) !! i = Some e.
Proof.
  intros Hi Hnull.
  destruct (isAvailable entry) eqn:Hav.
  - destruct (calculate_available self model t entry values idx Hav) as [_ ->].
    by apply blendEntries_lookup_null.
  - by rewrite calculate_unavailable.
Qed.

(** C2: the bootstrap expression (index [0]) on an available instance
    replaces the channels of every entry that tracks a parameter by the
    contribution the expression declares for it: the asset's triple when
    the expression references the parameter, and [(0, 1, current model
    value)] when it does not.  Neither the entry's previous channels nor the
    fade weight occur in the result. *)
Theorem bootstrap_expression_replaces
    (self : CubismExpressionMotion) (model : CubismModel) (t : number)
    (entry : CubismMotionQueueEntry)
    (values : list ExpressionParameterValue) (i : nat)
    (e : ExpressionParameterValue) (id : string) :
  isAvailable entry = true →
  wf_model model →
  values !! i = Some e →
  epv_parameterId e = Some id →
  let cur := (getParameterValueById model id).1 in
  let '(a, mu, o) := declaredContribution self id cur in
  frame_values (calculate self model t entry values 0) !! i
  = Some (mkExpressionParameterValue (Some id) a mu o).
Proof.
  intros Hav Hwf Hi Hid cur.
  destruct (calculate_available self model t entry values 0 Hav) as [_ ->].
  rewrite (blendEntries_lookup _ _ model model values i e Hwf
             (sameReads_refl model) Hi).
  unfold blendEntry. rewrite Hid.
  unfold getParameterValueById in *.
  destruct (getParameterIndex model id) as [ix m']. simpl in *.
  unfold blendChannels, declaredContribution, getExpressionParameters,
    newValues. simpl.
  destruct (findExpressionParameter id (_parameters self)) as [p|]; [|done].
  by destruct (blendType p).
Qed.

(** C3 (as amended): a later expression (index above [0]) with fade weight
    [w] blends the additive and the multiply channel from their previous
    content, [old * (1 - w) + new * w], but the overwrite channel from the
    current model value, [cur * (1 - w) + new * w]: the previous overwrite
    content is discarded.  [new] is the declared contribution ([(0, 1, cur)]
    for a parameter the expression does not reference).  At [w = 0] additive
    and multiply keep their previous content and overwrite is the current
    model value; at [w = 1] all three are [new]. *)
Theorem later_expression_blends
    (self : CubismExpressionMotion) (model : CubismModel) (t : number)
    (entry : CubismMotionQueueEntry)
    (values : list ExpressionParameterValue) (idx i : nat)
    (e : ExpressionParameterValue) (id : string) :
  isAvailable entry = true →
  wf_model model →
  idx ≠ 0%nat →
  values !! i = Some e →
  epv_parameterId e = Some id →
  let F := calculate self model t entry values idx in
  let w := getFadeWeight (frame_motion F) in
  let cur := (getParameterValueById model id).1 in
  let '(a, mu, o) := declaredContribution self id cur in
  w = (updateFadeWeight self (startEntry getDuration self t entry) t).1
  ∧ ∃ e',
      frame_values F !! i = Some e'
      ∧ epv_parameterId e' = Some id
      ∧ additiveValue e' = additiveValue e * (1 - w) + a * w
      ∧ multiplyValue e' = multiplyValue e * (1 - w) + mu * w
      ∧ overwriteValue e' = cur * (1 - w) + o * w
      ∧ (w = 0 →
           additiveValue e' = additiveValue e
           ∧ multiplyValue e' = multiplyValue e
           ∧ overwriteValue e' = cur)
      ∧ (w = 1 →
           additiveValue e' = a ∧ multiplyValue e' = mu
           ∧ overwriteValue e' = o).
Proof.
  intros Hav Hwf Hidx Hi Hid F w cur.
  destruct (calculate_available self model t entry values idx Hav)
    as [Hw Hvalues].
  fold F in Hw, Hvalues. fold w in Hw. cbv zeta in Hw, Hvalues.
  destruct (declaredContribution self id cur) as [[a mu] o] eqn:Hdecl.
  split; [exact Hw|].
  eexists. split.
  { rewrite Hvalues. rewrite <- Hw.
    apply (blendEntries_lookup _ _ model model values i e Hwf
             (sameReads_refl model) Hi). }
  unfold blendEntry. rewrite Hid.
  unfold cur, getParameterValueById in *.
  destruct (getParameterIndex model id) as [ix m']. simpl in *.
  unfold blendChannels, declaredContribution, getExpressionParameters,
    newValues, calculateValue,
    DefaultAdditiveValue, DefaultMultiplyValue in *. simpl in *.
  rewrite bool_decide_eq_false_2 by done.
  destruct (findExpressionParameter id (_parameters self)) as [p|].
  - destruct (blendType p); injection Hdecl as <- <- <-; simpl;
      (do 4 (split; [done|]));
      split; intros Hw01; rewrite Hw01; repeat split; ring.
  - injection Hdecl as <- <- <-; simpl;
      (do 4 (split; [done|]));
      split; intros Hw01; rewrite Hw01; repeat split; ring.
Qed.

End BlendingProperties.

(** *** Concrete runs *)

Lemma calculateExpressionParameters_unavailable_witness :
  calculateExpressionParameters noDuration (constantFade (q 3 10))
    overwriteExpression sampleModel 0 (sampleEntry false) sampleValues 1
  = mkFrame overwriteExpression sampleModel (sampleEntry false) sampleValues.
Proof.
  exact (calculateExpressionParameters_unavailable noDuration
           (constantFade (q 3 10)) overwriteExpression sampleModel 0
           (sampleEntry false) sampleValues 1 eq_refl).
Defined.

Lemma calculateExpressionParameters_skips_null_witness :
  frame_values
    (calculateExpressionParameters noDuration (constantFade (q 3 10))
       overwriteExpression sampleModel 0 (sampleEntry true) sampleValues 1)
    !! 1%nat
  = Some (mkExpressionParameterValue None (q 3 1) (q 4 1) (q 5 1)).
Proof.
  exact (calculateExpressionParameters_skips_null noDuration
           (constantFade (q 3 10)) overwriteExpression sampleModel 0
           (sampleEntry true) sampleValues 1 1 _ eq_refl eq_refl).
Defined.

(** The bootstrap expression overwrites [ParamB] with [1/2]: the entry for
    [ParamB] becomes [(0, 1, 1/2)] and the entry for the unknown [ParamZ],
    which the expression does not mention, becomes [(0, 1, 0)]. *)
Lemma bootstrap_expression_replaces_witness :
  frame_values
    (calculateExpressionParameters noDuration (constantFade (q 3 10))
       overwriteExpression sampleModel 0 (sampleEntry true) sampleValues 0)
    !! 0%nat
  = Some (mkExpressionParameterValue (Some "ParamB"%string) 0 1 (q 1 2))
  ∧ frame_values
      (calculateExpressionParameters noDuration (constantFade (q 3 10))
         overwriteExpression sampleModel 0 (sampleEntry true) sampleValues 0)
      !! 2%nat
    = Some (mkExpressionParameterValue (Some "ParamZ"%string) 0 1 0).
Proof.
  split.
  - exact (bootstrap_expression_replaces noDuration (constantFade (q 3 10))
             overwriteExpression sampleModel 0 (sampleEntry true)
             sampleValues 0 _ "ParamB" eq_refl sampleModel_wf eq_refl eq_refl).
  - exact (bootstrap_expression_replaces noDuration (constantFade (q 3 10))
             overwriteExpression sampleModel 0 (sampleEntry true)
             sampleValues 2 _ "ParamZ" eq_refl sampleModel_wf eq_refl eq_refl).
Defined.

(** The same expression at index [1] with weight [3/10], on the entry
    [(1/5, 2, 1/2)] for [ParamB] whose model value is [1/4]:
    additive [1/5 * 7/10], multiply [2 * 7/10 + 3/10] and overwrite
    [1/4 * 7/10 + 1/2 * 3/10]. *)
Lemma later_expression_blends_witness :
  ∃ e',
    frame_values
      (calculateExpressionParameters noDuration (constantFade (q 3 10))
         overwriteExpression sampleModel 0 (sampleEntry true) sampleValues 1)
      !! 0%nat = Some e'
    ∧ additiveValue e' = q 7 50
    ∧ multiplyValue e' = q 17 10
    ∧ overwriteValue e' = q 13 40.
Proof.
  pose proof (later_expression_blends noDuration (constantFade (q 3 10))
                overwriteExpression sampleModel 0 (sampleEntry true)
                sampleValues 1 0 _ "ParamB" eq_refl sampleModel_wf
                (Nat.neq_succ_0 0) eq_refl eq_refl) as H.
  cbv zeta in H.
  change (declaredContribution overwriteExpression "ParamB"
            (getParameterValueById sampleModel "ParamB").1)
    with (Q2Qc 0, Q2Qc 1, q 1 2) in H.
  destruct H as (_ & e' & Hl & _ & Ha & Hm & Ho & _).
  exists e'. split; [exact Hl|].
  rewrite Ha, Hm, Ho. num_eval.
Defined.

(** C3, as stated, fails on the overwrite channel.  An expression at index
    [1] that does not reference [ParamB], with weight [3/10], on an entry
    whose overwrite channel holds [1/2] while the model holds [1/4]: the
    code yields [1/4 * 7/10 + 1/4 * 3/10 = 1/4], not
    [1/2 * 7/10 + 1/4 * 3/10 = 17/40]; and with weight [0] it yields [1/4],
    not the previous [1/2]. *)
Lemma later_expression_overwrite_counterexample :
  let F w :=
    calculateExpressionParameters noDuration (constantFade w)
      emptyExpression sampleModel 0 (sampleEntry true) sampleValues 1 in
  getFadeWeight (frame_motion (F (q 3 10))) = q 3 10
  ∧ overwriteValue <$> sampleValues !! 0%nat = Some (q 1 2)
  ∧ (getParameterValueById sampleModel "ParamB").1 = q 1 4
  ∧ overwriteValue <$> frame_values (F (q 3 10)) !! 0%nat = Some (q 1 4)
  ∧ overwriteValue <$> frame_values (F (q 3 10)) !! 0%nat
    ≠ Some (q 1 2 * (1 - q 3 10) + q 1 4 * q 3 10)
  ∧ getFadeWeight (frame_motion (F 0)) = 0
  ∧ overwriteValue <$> frame_values (F 0) !! 0%nat = Some (q 1 4)
  ∧ overwriteValue <$> frame_values (F 0) !! 0%nat ≠ Some (q 1 2).
Proof. cbv zeta. num_eval. Qed.

(** ** Parsing an expression file *)

Lemma parseBlend_spec (blend : option string) :
  (parseBlend blend = Multiply ↔ blend = Some "Multiply"%string)
  ∧ (parseBlend blend = Overwrite ↔ blend = Some "Overwrite"%string)
  ∧ (parseBlend blend = Additive ↔
       blend ≠ Some "Multiply"%string ∧ blend ≠ Some "Overwrite"%string).
Proof.
  unfold parseBlend. destruct blend as [s|].
  - repeat case_bool_decide; subst; repeat split; intros;
      try (done || congruence); tauto.
  - repeat split; intros; done.
Qed.

(** C8: every entry of [Parameters] becomes one item, in order, with the
    entry's identifier and value; the item's operator is [Multiply] exactly
    for [Blend = "Multiply"], [Overwrite] exactly for [Blend = "Overwrite"],
    and [Additive] in every other case: an absent field, ["Add"], or any
    other string.  [create] is a total function: no input raises. *)
Theorem parse_defaults_blend_to_additive
    (base : CubismExpressionMotion) (json : ExpressionJSON)
    (params : list ExpressionJSONParameter) (i : nat)
    (param : ExpressionJSONParameter) :
  Parameters json = Some params →
  params !! i = Some param →
  ∃ item,
    _parameters (create base (Some json)) !! i = Some item
    ∧ parameterId item = Id param
    ∧ value item = Value param
    ∧ (blendType item = Multiply ↔ Blend param = Some "Multiply"%string)
    ∧ (blendType item = Overwrite ↔ Blend param = Some "Overwrite"%string)
    ∧ (blendType item = Additive ↔
         Blend param ≠ Some "Multiply"%string
         ∧ Blend param ≠ Some "Overwrite"%string)
    ∧ (Blend param = None → blendType item = Additive)
    ∧ (Blend param = Some "Add"%string → blendType item = Additive).
Proof.
  intros Hparams Hi. exists (parseParameter param).
  destruct (parseBlend_spec (Blend param)) as (Hm & Ho & Ha).
  unfold create, parse. simpl. rewrite Hparams. simpl.
  rewrite list_lookup_fmap, Hi. simpl.
  repeat split; try tauto.
  - intros Hb. apply Ha. rewrite Hb. done.
  - intros Hb. apply Ha. rewrite Hb. done.
Qed.

Lemma parse_defaults_blend_witness :
  blendType <$> _parameters (create emptyExpression (Some sampleJSON))
  = [Additive; Additive; Multiply; Overwrite; Additive]
  ∧ ∃ item,
      _parameters (create emptyExpression (Some sampleJSON)) !! 4%nat
      = Some item
      ∧ blendType item = Additive.
Proof.
  split; [reflexivity|].
  destruct (parse_defaults_blend_to_additive emptyExpression sampleJSON
              _ 4 _ eq_refl eq_refl)
    as (item & Hitem & _ & _ & _ & _ & Ha & _).
  exists item. split; [exact Hitem|].
  apply Ha. split; discriminate.
Defined.

(** ** Loading a Moc *)

Section MocProperties.

Variable CoreMoc : Type.
Variable core_hasMocConsistency : list Byte.byte → Z.
Variable core_fromArrayBuffer : list Byte.byte → option CoreMoc.
Variable core_csmGetMocVersion : CoreMoc → list Byte.byte → Z.

Abbreviation moc_create :=
  (CubismMoc_create CoreMoc core_hasMocConsistency core_fromArrayBuffer
     core_csmGetMocVersion).

(** C9: with the check requested, an inconsistent payload makes [create]
    throw, and nothing is returned; when the check passes or is not
    requested and the core loads the payload, [create] returns a
    [CubismMoc] for the loaded Moc whose [getMocVersion] is the version the
    core reported at load. *)
Theorem create_throws_on_inconsistent_moc
    (mocBytes : list Byte.byte) (shouldCheckMocConsistency : bool) :
  (hasMocConsistency core_hasMocConsistency mocBytes = false →
     moc_create mocBytes true = Throws "Inconsistent MOC3.")
  ∧ (∀ moc,
       shouldCheckMocConsistency = false
       ∨ hasMocConsistency core_hasMocConsistency mocBytes = true →
       core_fromArrayBuffer mocBytes = Some moc →
       ∃ cubismMoc,
         moc_create mocBytes shouldCheckMocConsistency = Returns cubismMoc
         ∧ _moc CoreMoc cubismMoc = moc
         ∧ getMocVersion CoreMoc cubismMoc
           = core_csmGetMocVersion moc mocBytes).
Proof.
  split.
  - intros Hbad. unfold CubismMoc_create. by rewrite Hbad.
  - intros moc Hcheck Hload. unfold CubismMoc_create. rewrite Hload.
    destruct Hcheck as [-> | ->]; simpl.
    + by eexists.
    + rewrite andb_false_r. by eexists.
Qed.

End MocProperties.

Lemma create_throws_on_inconsistent_moc_witness :
  CubismMoc_create nat sample_hasMocConsistency sample_fromArrayBuffer
    sample_csmGetMocVersion [] true
  = Throws "Inconsistent MOC3."
  ∧ ∃ cubismMoc,
      CubismMoc_create nat sample_hasMocConsistency sample_fromArrayBuffer
        sample_csmGetMocVersion [Byte.x00; Byte.x01] true
      = Returns cubismMoc
      ∧ getMocVersion nat cubismMoc = 3%Z.
Proof.
  split.
  - destruct (create_throws_on_inconsistent_moc nat sample_hasMocConsistency
                sample_fromArrayBuffer sample_csmGetMocVersion [] true)
      as [H _]. exact (H eq_refl).
  - destruct (create_throws_on_inconsistent_moc nat sample_hasMocConsistency
                sample_fromArrayBuffer sample_csmGetMocVersion
                [Byte.x00; Byte.x01] true) as [_ H].
    destruct (H 2%nat (or_intror eq_refl) eq_refl) as (cm & Hcm & _ & Hv).
    exists cm. split; [exact Hcm | exact Hv].
Defined.

(** * Further properties *)

(** ** Resolving real identifiers *)

Lemma scanIds_Some id ids count k i :
  scanIds id ids count k = Some i →
  ∃ j, i = (k + j)%nat ∧ (j < count)%nat ∧ ids !! j = Some id
       ∧ ∀ j', (j' < j)%nat → ids !! j' ≠ Some id.
Proof.
  revert ids k. induction count as [|count IH]; intros ids k; simpl; [done|].
  destruct ids as [|x ids]; [done|]. case_bool_decide as Hx.
  - intros [= <-]. exists 0%nat. subst x. repeat split; [lia | lia | lia].
  - intros Hi. destruct (IH _ _ Hi) as (j & -> & Hj & Hid & Hfirst).
    exists (S j). repeat split; [lia | lia | done |].
    intros [|j'] Hj'; simpl; [congruence | apply Hfirst; lia].
Qed.

Lemma scanIds_None id ids count k :
  scanIds id ids count k = None ↔
  ∀ j, (j < count)%nat → ids !! j ≠ Some id.
Proof.
  revert ids k. induction count as [|count IH]; intros ids k; simpl.
  - split; [intros _ j Hj; lia | done].
  - destruct ids as [|x ids]; [done|]. case_bool_decide as Hx.
    + split; [done|]. intros H. subst x. by destruct (H 0%nat ltac:(lia)).
    + rewrite IH. split.
      * intros H [|j] Hj; simpl; [congruence | apply H; lia].
      * intros H j Hj. apply (H (S j)). lia.
Qed.

Lemma scanIds_first id ids count i :
  (i < count)%nat → ids !! i = Some id →
  (∀ j, (j < i)%nat → ids !! j ≠ Some id) →
  scanIds id ids count 0 = Some i.
Proof.
  intros Hi Hid Hfirst.
  destruct (scanIds id ids count 0) as [i'|] eqn:Hscan.
  - destruct (scanIds_Some _ _ _ _ _ Hscan) as (j & -> & Hj & Hidj & Hfj).
    simpl. f_equal.
    destruct (Nat.lt_trichotomy j i) as [Hlt | [-> | Hgt]]; [|done|].
    + by destruct (Hfirst j Hlt).
    + by destruct (Hfj i Hgt).
  - rewrite scanIds_None in Hscan. by destruct (Hscan i Hi).
Qed.

(** X1: resolving the identifier of a real parameter returns its first
    position among the first [count] identifiers and leaves the model as it
    is; on a well-formed model the read by identifier returns the value
    stored at that position. *)
Theorem getParameterIndex_real
    (m : CubismModel) (id : string) (i : nat) (v : number) :
  (i < parameters_count (_model m))%nat →
  _parameterIds m !! i = Some id →
  (∀ j, (j < i)%nat → _parameterIds m !! j ≠ Some id) →
  getParameterIndex m id = (i, m)
  ∧ (wf_model m → _parameterValues m !! i = Some v →
     getParameterValueById m id = (v, m)).
Proof.
  intros Hi Hid Hfirst.
  assert (Hidx : getParameterIndex m id = (i, m)).
  { unfold getParameterIndex. by rewrite (scanIds_first _ _ _ _ Hi Hid Hfirst). }
  split; [done|]. intros [Hc Hr Hd] Hv.
  unfold getParameterValueById. rewrite Hidx.
  unfold getParameterValueByIndex.
  destruct (_notExistParameterValues m !! i) as [s|] eqn:Hs.
  - assert (Hsome : is_Some (_notExistParameterValues m !! i)) by eauto.
    apply Hd in Hsome as [id' Hid']. apply Hr in Hid'. lia.
  - by rewrite Hv.
Qed.

Lemma getParameterIndex_real_witness :
  getParameterIndex sampleModel "ParamB" = (1%nat, sampleModel)
  ∧ getParameterValueById sampleModel "ParamB" = (q 1 4, sampleModel).
Proof.
  assert (Hfirst : ∀ j, (j < 1)%nat →
                        _parameterIds sampleModel !! j ≠ Some "ParamB"%string).
  { intros [|j] Hj; [discriminate | lia]. }
  destruct (getParameterIndex_real sampleModel "ParamB" 1 (q 1 4)
              (Nat.lt_succ_diag_r 1) eq_refl Hfirst) as [Hidx Hval].
  split; [exact Hidx | exact (Hval sampleModel_wf eq_refl)].
Defined.

(** ** Writes and the parameter range *)

Lemma clampToRange_idempotent m i v :
  clampToRange m i (clampToRange m i v) = clampToRange m i v.
Proof.
  unfold clampToRange, num_ltb.
  destruct (parameters_maximumValues (_model m) !! i) as [mx|];
    destruct (parameters_minimumValues (_model m) !! i) as [mn|];
    repeat case_bool_decide; try done; num_order.
Qed.

Lemma clampToRange_inRange_id m i v :
  inRange m i v → clampToRange m i v = v.
Proof.
  intros [Hmx Hmn]. unfold clampToRange, num_ltb.
  destruct (parameters_maximumValues (_model m) !! i) as [mx|];
    destruct (parameters_minimumValues (_model m) !! i) as [mn|];
    repeat case_bool_decide; try done;
    try (specialize (Hmx _ eq_refl)); try (specialize (Hmn _ eq_refl));
    num_order.
Qed.

(** When the range of parameter [i] is not empty the range tests land in
    it. *)
Lemma clampToRange_inRange m i v :
  (∀ mn mx, parameters_minimumValues (_model m) !! i = Some mn →
            parameters_maximumValues (_model m) !! i = Some mx → mn ≤ mx) →
  inRange m i (clampToRange m i v).
Proof.
  intros Hok. unfold clampToRange, num_ltb, inRange.
  destruct (parameters_maximumValues (_model m) !! i) as [mx|];
    destruct (parameters_minimumValues (_model m) !! i) as [mn|];
    try (specialize (Hok _ _ eq_refl eq_refl));
    repeat case_bool_decide; split; intros ? [= <-]; num_order.
Qed.

Lemma blend_between (a b lo w : number) :
  lo ≤ a → lo ≤ b → 0 ≤ w ≤ 1 → lo ≤ a * (1 - w) + b * w.
Proof.
  intros Ha Hb [Hw0 Hw1].
  assert (H1w : 0 ≤ 1 - w) by (by apply Qcle_minus_iff in Hw1).
  replace lo with (lo * (1 - w) + lo * w) by ring.
  apply Qcplus_le_compat; by apply Qcmult_le_compat_r.
Qed.

Lemma blend_below (a b hi w : number) :
  a ≤ hi → b ≤ hi → 0 ≤ w ≤ 1 → a * (1 - w) + b * w ≤ hi.
Proof.
  intros Ha Hb [Hw0 Hw1].
  assert (H1w : 0 ≤ 1 - w) by (by apply Qcle_minus_iff in Hw1).
  replace hi with (hi * (1 - w) + hi * w) by ring.
  apply Qcplus_le_compat; by apply Qcmult_le_compat_r.
Qed.

Lemma model_eta m :
  mkCubismModel (_model m) (_parameterValues m) (_partOpacities m)
    (_parameterIds m) (_partIds m) (_drawableIds m) (_savedParameters m)
    (_notExistParameterId m) (_notExistParameterValues m)
    (_notExistPartId m) (_notExistPartOpacities m)
    (_isOverwrittenModelMultiplyColors m)
    (_isOverwrittenModelScreenColors m)
    (_userMultiplyColors m) (_userScreenColors m) = m.
Proof. by destruct m. Qed.

(** The result of a write with weight [1] when the written value passes
    the range tests unchanged (or the index is a shadow index): the slot
    holds the value. *)
Lemma setParameterValueByIndex_same m i v :
  getParameterValueByIndex m i = v →
  (_notExistParameterValues m !! i = None →
   is_Some (_parameterValues m !! i) → clampToRange m i v = v) →
  setParameterValueByIndex m i v 1 = m.
Proof.
  intros Hget Hclamp. unfold setParameterValueByIndex, getParameterValueByIndex,
    num_eqb in *.
  rewrite bool_decide_eq_true_2 by done.
  destruct (_notExistParameterValues m !! i) as [old|] eqn:Hs.
  - subst old. unfold set_notExistParameter. rewrite insert_id by done.
    apply model_eta.
  - destruct (_parameterValues m !! i) as [old|] eqn:Hv; [|done].
    rewrite Hclamp by eauto.
    simpl in Hget. subst old. unfold set_parameterValues.
    rewrite list_insert_id by done. apply model_eta.
Qed.

(** X2: writing the same value twice with weight [1] is the same as
    writing it once, whatever the index (real, shadow or neither) and the
    value. *)
Theorem setParameterValueByIndex_idempotent
    (m : CubismModel) (i : nat) (v : number) :
  setParameterValueByIndex (setParameterValueByIndex m i v 1) i v 1
  = setParameterValueByIndex m i v 1.
Proof.
  destruct (_notExistParameterValues m !! i) as [old|] eqn:Hs.
  - assert (E : setParameterValueByIndex m i v 1
                = set_notExistParameter (_notExistParameterId m)
                    (<[i := v]> (_notExistParameterValues m)) m).
    { unfold setParameterValueByIndex, num_eqb.
      by rewrite Hs, bool_decide_eq_true_2. }
    rewrite E. unfold setParameterValueByIndex, num_eqb. simpl.
    rewrite lookup_insert_eq. rewrite ?bool_decide_eq_true_2 by done.
    unfold set_notExistParameter. simpl. by rewrite insert_insert_eq.
  - destruct (_parameterValues m !! i) as [old|] eqn:Hv.
    + assert (E : setParameterValueByIndex m i v 1
                  = set_parameterValues
                      (<[i := clampToRange m i v]> (_parameterValues m)) m).
      { unfold setParameterValueByIndex, num_eqb.
        by rewrite Hs, Hv, bool_decide_eq_true_2. }
      rewrite E. unfold setParameterValueByIndex, num_eqb. simpl. rewrite Hs.
      rewrite list_lookup_insert_eq by (by eapply lookup_lt_Some).
      rewrite ?bool_decide_eq_true_2 by done.
      unfold set_parameterValues. simpl.
      by rewrite list_insert_insert_eq.
    + assert (E : setParameterValueByIndex m i v 1 = m).
      { unfold setParameterValueByIndex. by rewrite Hs, Hv. }
      by rewrite !E.
Qed.

Lemma setParameterValueByIndex_valuesInRange m i v w :
  valuesInRange m → w = 1 ∨ 0 ≤ w ≤ 1 →
  valuesInRange (setParameterValueByIndex m i v w).
Proof.
  intros Hin Hw. unfold setParameterValueByIndex.
  destruct (_notExistParameterValues m !! i); [exact Hin|].
  destruct (_parameterValues m !! i) as [old|] eqn:Hold; [|exact Hin].
  intros j v'. unfold inRange. simpl.
  destruct (decide (i = j)) as [<-|Hne].
  - rewrite list_lookup_insert_eq by (by eapply lookup_lt_Some).
    intros [= <-]. pose proof (Hin i old Hold) as [Hmx Hmn].
    assert (Hc : inRange m i (clampToRange m i v)).
    { apply clampToRange_inRange. intros mn mx Hn Hx.
      apply Hmx in Hx. apply Hmn in Hn. by etrans. }
    destruct Hc as [Hcx Hcn]. unfold num_eqb. case_bool_decide as Hw1.
    + by split.
    + destruct Hw as [Hw|Hw]; [done|]. split.
      * intros mx Hx. apply blend_below; auto.
      * intros mn Hn. apply blend_between; auto.
  - rewrite list_lookup_insert_ne by done. apply Hin.
Qed.


Lemma sampleModel_valuesInRange : valuesInRange sampleModel.
Proof.
  intros [|[|i]] v Hv; [| |done]; injection Hv as <-;
    (split; intros ? [= <-]; vm_compute; discriminate).
Qed.


Lemma zero_weight_writes m i v :
  setParameterValueByIndex m i v 0 = m
  ∧ (valuesInRange m →
     addParameterValueByIndex m i v 0 = m
     ∧ multiplyParameterValueByIndex m i v 0 = m).
Proof.
  split.
  - unfold setParameterValueByIndex, num_eqb.
    rewrite bool_decide_eq_false_2 by discriminate.
    destruct (_notExistParameterValues m !! i) as [old|] eqn:Hs.
    + replace (old * (1 - 0) + v * 0) with old by ring.
      unfold set_notExistParameter. rewrite insert_id by done.
      apply model_eta.
    + destruct (_parameterValues m !! i) as [old|] eqn:Hv; [|done].
      replace (old * (1 - 0) + clampToRange m i v * 0) with old by ring.
      unfold set_parameterValues. rewrite list_insert_id by done.
      apply model_eta.
  - intros Hin.
    assert (Hsame : setParameterValueByIndex m i
                      (getParameterValueByIndex m i) 1 = m).
    { apply setParameterValueByIndex_same; [done|].
      intros Hs [old Hv]. unfold getParameterValueByIndex. rewrite Hs, Hv.
      simpl. apply clampToRange_inRange_id. by apply Hin. }
    unfold addParameterValueByIndex, multiplyParameterValueByIndex. split.
    + replace (getParameterValueByIndex m i + v * 0)
        with (getParameterValueByIndex m i) by ring. exact Hsame.
    + replace (getParameterValueByIndex m i * (1 + (v - 1) * 0))
        with (getParameterValueByIndex m i) by ring. exact Hsame.
Qed.

(** X4: with weight [0] none of the three writers changes the model, at any
    index, as long as the stored real values are inside their ranges (the
    overwriting writer needs no such condition). *)
Theorem zero_weight_writes_change_nothing
    (m : CubismModel) (i : nat) (v : number) :
  setParameterValueByIndex m i v 0 = m
  ∧ (valuesInRange m →
     addParameterValueByIndex m i v 0 = m
     ∧ multiplyParameterValueByIndex m i v 0 = m).
Proof. apply zero_weight_writes. Qed.

Lemma zero_weight_writes_witness :
  setParameterValueByIndex sampleModel 1 (q 9 1) 0 = sampleModel
  ∧ addParameterValueByIndex sampleModel 1 (q 9 1) 0 = sampleModel
  ∧ multiplyParameterValueByIndex sampleModel 1 (q 9 1) 0 = sampleModel.
Proof.
  destruct (zero_weight_writes_change_nothing sampleModel 1 (q 9 1))
    as [Hset Hrest].
  destruct (Hrest sampleModel_valuesInRange) as [Hadd Hmul].
  split; [exact Hset | split; [exact Hadd | exact Hmul]].
Defined.

(** ** Shadow indices of parameters *)

Lemma extendsRegistry_refl m : extendsRegistry m m.
Proof. by repeat split. Qed.

Lemma extendsRegistry_trans m1 m2 m3 :
  extendsRegistry m1 m2 → extendsRegistry m2 m3 → extendsRegistry m1 m3.
Proof.
  intros (Ha & Hb & Hc) (Ha' & Hb' & Hc').
  repeat split; [congruence | congruence | by etrans].
Qed.

Lemma getParameterIndex_extends m id :
  extendsRegistry m (getParameterIndex m id).2.
Proof.
  unfold getParameterIndex.
  destruct (scanIds _ _ _ _); [apply extendsRegistry_refl|].
  destruct (_notExistParameterId m !! id) eqn:Hid;
    [apply extendsRegistry_refl|].
  repeat split; simpl. by apply insert_subseteq.
Qed.

Lemma resolveAll_extends ids m : extendsRegistry m (resolveAll m ids).
Proof.
  revert m. induction ids as [|id ids IH]; intros m;
    [apply extendsRegistry_refl|]. simpl.
  eapply extendsRegistry_trans; [apply getParameterIndex_extends | apply IH].
Qed.

Lemma setParameterValueByIndex_extends m i v w :
  extendsRegistry m (setParameterValueByIndex m i v w).
Proof.
  unfold setParameterValueByIndex.
  destruct (_notExistParameterValues m !! i); [by repeat split|].
  destruct (_parameterValues m !! i); by repeat split.
Qed.

Lemma applyWrites_extends ws m : extendsRegistry m (applyWrites m ws).
Proof.
  revert m. induction ws as [|w ws IH]; intros m;
    [apply extendsRegistry_refl|]. simpl.
  eapply extendsRegistry_trans; [|apply IH].
  destruct w; apply setParameterValueByIndex_extends.
Qed.

(** After an identifier has been resolved, it is a real identifier or a
    key of the table of unknown identifiers. *)
Lemma getParameterIndex_resolved m id :
  let '(i, m') := getParameterIndex m id in
  scanIds id (_parameterIds m') (parameters_count (_model m')) 0 = Some i
  ∨ (scanIds id (_parameterIds m') (parameters_count (_model m')) 0 = None
     ∧ _notExistParameterId m' !! id = Some i).
Proof.
  unfold getParameterIndex.
  destruct (scanIds _ _ _ _) as [i|] eqn:Hscan; [by left|].
  destruct (_notExistParameterId m !! id) as [i|] eqn:Hid; [by right|].
  right. simpl. split; [done|]. by rewrite lookup_insert_eq.
Qed.

Lemma getParameterIndex_extended m m' id i :
  extendsRegistry m m' →
  scanIds id (_parameterIds m) (parameters_count (_model m)) 0 = Some i
  ∨ (scanIds id (_parameterIds m) (parameters_count (_model m)) 0 = None
     ∧ _notExistParameterId m !! id = Some i) →
  getParameterIndex m' id = (i, m').
Proof.
  intros (Hm & Hids & Hsub) Hres. unfold getParameterIndex.
  rewrite Hm, Hids. destruct Hres as [-> | [-> Hid]]; [done|].
  by rewrite (lookup_weaken _ _ _ _ Hid Hsub).
Qed.

(** X5: once an identifier has been resolved, every later resolution of it
    returns the same index and changes nothing, whatever other identifiers
    were resolved and whatever values were written in between. *)
Theorem getParameterIndex_stable
    (m : CubismModel) (id : string) (ids : list string)
    (ws : list ParameterWrite) :
  let m1 := (getParameterIndex m id).2 in
  let m2 := applyWrites (resolveAll m1 ids) ws in
  getParameterIndex m2 id = ((getParameterIndex m id).1, m2).
Proof.
  intros m1 m2. pose proof (getParameterIndex_resolved m id) as Hres.
  destruct (getParameterIndex m id) as [i m'] eqn:Hidx. simpl in *.
  apply (getParameterIndex_extended m1); [|done].
  eapply extendsRegistry_trans;
    [apply resolveAll_extends | apply applyWrites_extends].
Qed.





(** X7: a value written by identifier with weight [1] is read back by
    identifier: as written, without any clamping, when the identifier is
    unknown to the model, and limited by the range tests when it names the
    real parameter [i]. *)
Theorem setParameterValueById_read_back
    (m : CubismModel) (id : string) (v : number) :
  wf_model m →
  (scanIds id (_parameterIds m) (parameters_count (_model m)) 0 = None →
   (getParameterValueById (setParameterValueById m id v 1) id).1 = v)
  ∧ (∀ i,
       scanIds id (_parameterIds m) (parameters_count (_model m)) 0 = Some i →
       (getParameterValueById (setParameterValueById m id v 1) id).1
       = clampToRange m i v).
Proof.
  intros Hwf.
  pose proof (getParameterIndex_wf m id Hwf) as Hwf1.
  pose proof (getParameterIndex_defined m id Hwf) as Hdef.
  pose proof (getParameterIndex_extends m id) as (Hm1 & Hids1 & _).
  pose proof (getParameterIndex_resolved m id) as Hres.
  unfold setParameterValueById.
  destruct (getParameterIndex m id) as [i m1] eqn:Hidx. simpl in *.
  assert (Hback : getParameterIndex (setParameterValueByIndex m1 i v 1) id
                  = (i, setParameterValueByIndex m1 i v 1)).
  { apply (getParameterIndex_extended m1); [|done].
    apply setParameterValueByIndex_extends. }
  unfold getParameterValueById. rewrite Hback.
  unfold getParameterValueByIndex, setParameterValueByIndex, num_eqb.
  rewrite bool_decide_eq_true_2 by done.
  rewrite Hm1, Hids1 in Hres. split.
  - intros Hscan. rewrite Hscan in Hres. destruct Hres as [|[_ Hid]]; [done|].
    destruct Hwf1 as [_ _ Hd1].
    assert (Hsome : is_Some (_notExistParameterValues m1 !! i))
      by (apply Hd1; eauto).
    destruct Hsome as [old ->]. simpl. by rewrite lookup_insert_eq.
  - intros i' Hscan. rewrite Hscan in Hres.
    destruct Hres as [[= ->]|[? _]]; [|done].
    unfold getParameterIndex in Hidx. rewrite Hscan in Hidx.
    injection Hidx as <-.
    destruct Hdef as [[s Hs]|[Hs [old Hv]]].
    + pose proof Hwf as [_ Hr Hd].
      assert (Hsome : is_Some (_notExistParameterValues m !! i)) by eauto.
      apply Hd in Hsome as [id' Hid']. apply Hr in Hid'.
      apply scanIds_range in Hscan. lia.
    + rewrite Hs, Hv. simpl. rewrite Hs.
      by rewrite list_lookup_insert_eq by (by eapply lookup_lt_Some).
Qed.

Lemma setParameterValueById_read_back_witness :
  (getParameterValueById
     (setParameterValueById sampleModel "ParamZ" (q 9 1) 1) "ParamZ").1
  = q 9 1
  ∧ (getParameterValueById
       (setParameterValueById sampleModel "ParamA" (q 9 1) 1) "ParamA").1
    = 1.
Proof.
  split.
  - destruct (setParameterValueById_read_back sampleModel "ParamZ" (q 9 1)
                sampleModel_wf) as [H _]. exact (H eq_refl).
  - destruct (setParameterValueById_read_back sampleModel "ParamA" (q 9 1)
                sampleModel_wf) as [_ H].
    rewrite (H 0%nat eq_refl). apply Qc_is_canon. reflexivity.
Defined.

(** ** Part opacities *)

(** X8: an opacity written by index is read back at that index, when the
    index is a key of the shadow table or lies inside the opacity array; a
    write never changes what is read at another index. *)
Theorem setPartOpacityByIndex_read_back
    (m : CubismModel) (partIndex other : JsIndex) (opacity : number) :
  (is_Some (_notExistPartOpacities m !! partIndex)
   ∨ (∃ n, partIndex = Idx n ∧ (n < length (_partOpacities m))%nat) →
   getPartOpacityByIndex (setPartOpacityByIndex m partIndex opacity) partIndex
   = opacity)
  ∧ (other ≠ partIndex →
     getPartOpacityByIndex (setPartOpacityByIndex m partIndex opacity) other
     = getPartOpacityByIndex m other).
Proof.
  unfold getPartOpacityByIndex, setPartOpacityByIndex. split.
  - intros Hkey.
    destruct (_notExistPartOpacities m !! partIndex) as [old|] eqn:Hs; simpl.
    + by rewrite lookup_insert_eq.
    + destruct Hkey as [[? ?]|(n & -> & Hn)]; [done|]. simpl. rewrite Hs.
      by rewrite list_lookup_insert_eq.
  - intros Hne.
    destruct (_notExistPartOpacities m !! partIndex) as [old|] eqn:Hs; simpl.
    + by rewrite lookup_insert_ne.
    + destruct partIndex as [n|]; simpl; [|done].
      destruct (_notExistPartOpacities m !! other); [done|].
      destruct other as [n'|]; [|done].
      rewrite list_lookup_insert_ne; [done | congruence].
Qed.

Lemma setPartOpacityByIndex_read_back_witness :
  getPartOpacityByIndex (setPartOpacityByIndex sampleModel (Idx 1) (q 1 2))
    (Idx 1) = q 1 2
  ∧ getPartOpacityByIndex (setPartOpacityByIndex sampleModel (Idx 1) (q 1 2))
      (Idx 0) = 1.
Proof.
  destruct (setPartOpacityByIndex_read_back sampleModel (Idx 1) (Idx 0)
              (q 1 2)) as [Hsame Hother].
  split.
  - apply Hsame. right. exists 1%nat. split; [reflexivity | simpl; lia].
  - rewrite Hother by discriminate. reflexivity.
Defined.



(** ** Colour overrides *)

(** X10: the multiply colour follows the per-drawable flag written by
    [setOverwriteFlagForDrawableMultiplyColors]: afterwards
    [getMultiplyColor] returns the user colour of the drawable when the
    model-wide flag or the written flag is set, and the core's colour
    otherwise; the other drawables are not affected. *)
Theorem getMultiplyColor_follows_flag
    (m m' : CubismModel) (i j : nat) (flag : bool) (d : DrawableColorData) :
  _userMultiplyColors m !! i = Some d →
  setOverwriteFlagForDrawableMultiplyColors m i flag = Some m' →
  getMultiplyColor m' i
  = Some (if getOverwriteFlagForModelMultiplyColors m || flag
          then Color d else getDrawableMultiplyColor m i)
  ∧ (j ≠ i → getMultiplyColor m' j = getMultiplyColor m j).
Proof.
  intros Hd. unfold setOverwriteFlagForDrawableMultiplyColors. rewrite Hd.
  simpl. intros [= <-].
  unfold getMultiplyColor, getOverwriteFlagForModelMultiplyColors,
    getOverwriteFlagForDrawableMultiplyColors. simpl. split.
  - rewrite list_lookup_insert_eq by (by eapply lookup_lt_Some). simpl.
    by destruct (_isOverwrittenModelMultiplyColors m), flag.
  - intros Hne. by rewrite list_lookup_insert_ne.
Qed.

Lemma getMultiplyColor_follows_flag_witness :
  ∃ m',
    setOverwriteFlagForDrawableMultiplyColors sampleModel 0 true = Some m'
    ∧ getMultiplyColor sampleModel 0 = Some (mkColor 1 1 1 1)
    ∧ getMultiplyColor m' 0 = Some (mkColor 1 1 1 1).
Proof.
  destruct (setOverwriteFlagForDrawableMultiplyColors sampleModel 0 true)
    as [m'|] eqn:E; [|vm_compute in E; discriminate E].
  exists m'. split; [reflexivity|]. split; [reflexivity|].
  exact (proj1 (getMultiplyColor_follows_flag sampleModel m' 0 0 true _
                  eq_refl E)).
Defined.

(** X11: with the model-wide flag set, [getMultiplyColor] and
    [getScreenColor] return the colour last written with
    [setMultiplyColorByRGBA] and [setScreenColorByRGBA], whatever the
    per-drawable flags are. *)
Theorem model_wide_flag_returns_user_color
    (m m' : CubismModel) (i : nat) (r g b a : number) :
  (setMultiplyColorByRGBA m i r g b a = Some m' →
   getMultiplyColor (setOverwriteFlagForModelMultiplyColors m' true) i
   = Some (mkColor r g b a))
  ∧ (setScreenColorByRGBA m i r g b a = Some m' →
     getScreenColor (setOverwriteFlagForModelScreenColors m' true) i
     = Some (mkColor r g b a)).
Proof.
  unfold setMultiplyColorByRGBA, setScreenColorByRGBA, setColorByRGBA,
    getMultiplyColor, getScreenColor. split.
  - destruct (_userMultiplyColors m !! i) as [d|] eqn:Hd; [|done]. simpl.
    intros [= <-]. simpl.
    by rewrite list_lookup_insert_eq by (by eapply lookup_lt_Some).
  - destruct (_userScreenColors m !! i) as [d|] eqn:Hd; [|done]. simpl.
    intros [= <-]. simpl.
    by rewrite list_lookup_insert_eq by (by eapply lookup_lt_Some).
Qed.

Lemma model_wide_flag_returns_user_color_witness :
  ∃ m',
    setScreenColorByRGBA sampleModel 0 1 0 0 1 = Some m'
    ∧ getScreenColor (setOverwriteFlagForModelScreenColors m' true) 0
      = Some (mkColor 1 0 0 1).
Proof.
  destruct (setScreenColorByRGBA sampleModel 0 1 0 0 1)
    as [m'|] eqn:E; [|vm_compute in E; discriminate E].
  exists m'. split; [reflexivity|].
  exact (proj2 (model_wide_flag_returns_user_color sampleModel m' 0 1 0 0 1)
           E).
Defined.

(** ** More on snapshot and restore *)

(** X12: [loadParameters] copies back the first [min count saved.length]
    entries of the snapshot and leaves every other value as it is; in
    particular, with no snapshot taken it changes nothing. *)
Theorem loadParameters_restores_prefix (m : CubismModel) (i : nat) :
  (parameters_count (_model m) ≤ length (_parameterValues m))%nat →
  _parameterValues (loadParameters m) !! i
  = (if bool_decide (i < parameters_count (_model m)
                         `min` length (_savedParameters m))%nat
     then _savedParameters m !! i
     else _parameterValues m !! i)
  ∧ (_savedParameters m = [] → loadParameters m = m).
Proof.
  intros Hlen. split.
  - unfold loadParameters. cbn [_parameterValues set_parameterValues].
    set (n := if bool_decide (length (_savedParameters m)
                              < parameters_count (_model m))%nat
              then length (_savedParameters m)
              else parameters_count (_model m)).
    assert (Hn : n = (parameters_count (_model m)
                      `min` length (_savedParameters m))%nat).
    { subst n. case_bool_decide; lia. }
    destruct (loadLoop_spec (_savedParameters m) (_parameterValues m) n)
      as (_ & Hlt & Hge); [lia | lia |].
    rewrite <- Hn. case_bool_decide; [by apply Hlt | apply Hge; lia].
  - intros Hnil. unfold loadParameters. rewrite Hnil.
    assert (Hn : (if bool_decide (length (@nil Qc)
                                  < parameters_count (_model m))%nat
                  then length (@nil Qc) else parameters_count (_model m))
                 = 0%nat) by (case_bool_decide; simpl in *; lia).
    rewrite Hn. simpl. unfold set_parameterValues. apply model_eta.
Qed.

Lemma loadParameters_restores_prefix_witness :
  _parameterValues (loadParameters sampleModel) !! 1%nat = Some (q 1 4)
  ∧ loadParameters sampleModel = sampleModel.
Proof.
  destruct (loadParameters_restores_prefix sampleModel 1)
    as [Hi Hnil]; [simpl; lia|].
  split; [rewrite Hi; reflexivity | exact (Hnil eq_refl)].
Defined.

Lemma saveLoop_fixed (vals saved : list number) c n :
  (n ≤ c)%nat →
  (∀ i, (i < n)%nat → saved !! i = Some (default 0 (vals !! i))) →
  fold_left (saveStep vals c) (seq 0 n) saved = saved.
Proof.
  induction n as [|n IH]; intros Hn Hsaved; [done|].
  rewrite seq_S, fold_left_app. simpl.
  rewrite IH by (try lia; intros; apply Hsaved; lia).
  unfold saveStep. rewrite bool_decide_eq_true_2 by lia.
  apply list_insert_id, Hsaved. lia.
Qed.

(** X13: taking the snapshot twice in a row is the same as taking it
    once. *)
Theorem saveParameters_idempotent (m : CubismModel) :
  saveParameters (saveParameters m) = saveParameters m.
Proof.
  destruct (saveLoop_spec (_parameterValues m) (_savedParameters m)
              (parameters_count (_model m))) as (Hlen & Hlt & _).
  unfold saveParameters at 1. cbn [_model _parameterValues _savedParameters].
  unfold saveParameters at 1 2 3.
  cbn [_model _parameterValues _savedParameters set_savedParameters].
  rewrite saveLoop_fixed; [done | lia | exact Hlt].
Qed.

(** ** Applying an expression directly *)

Lemma getParameterIndex_values m id :
  _parameterValues (getParameterIndex m id).2 = _parameterValues m.
Proof.
  unfold getParameterIndex. destruct (scanIds _ _ _ _); [done|].
  by destruct (_notExistParameterId m !! id).
Qed.

Lemma getParameterIndex_valuesInRange m id :
  valuesInRange m → valuesInRange (getParameterIndex m id).2.
Proof.
  intros Hin i v. rewrite getParameterIndex_values.
  destruct (getParameterIndex_extends m id) as (Hm & _).
  unfold inRange. rewrite Hm. apply Hin.
Qed.

Lemma applyExpressionParameter_valuesInRange weight m p :
  0 ≤ weight ≤ 1 → valuesInRange m →
  valuesInRange (applyExpressionParameter weight m p).
Proof.
  intros Hw Hin. pose proof (getParameterIndex_valuesInRange m
                               (parameterId p) Hin) as Hin1.
  unfold applyExpressionParameter, addParameterValueById,
    multiplyParameterValueById, setParameterValueById,
    addParameterValueByIndex, multiplyParameterValueByIndex.
  destruct (getParameterIndex m (parameterId p)) as [i m1]. simpl in Hin1.
  destruct (blendType p);
    apply setParameterValueByIndex_valuesInRange; auto.
Qed.

(** X14: [doUpdateParameters] with a weight in [[0, 1]] keeps every real
    parameter value inside its range, whatever the expression holds. *)
Theorem doUpdateParameters_keeps_values_in_range
    (self : CubismExpressionMotion) (model : CubismModel)
    (userTimeSeconds weight : number) (entry : CubismMotionQueueEntry) :
  0 ≤ weight ≤ 1 → valuesInRange model →
  valuesInRange (doUpdateParameters self model userTimeSeconds weight entry).
Proof.
  intros Hw. unfold doUpdateParameters. generalize (_parameters self).
  intros ps. revert model. induction ps as [|p ps IH]; intros m Hin; [done|].
  simpl. apply IH. by apply applyExpressionParameter_valuesInRange.
Qed.

Lemma doUpdateParameters_keeps_values_in_range_witness :
  valuesInRange
    (doUpdateParameters overwriteExpression sampleModel 0 (q 1 2)
       (sampleEntry true)).
Proof.
  apply (doUpdateParameters_keeps_values_in_range overwriteExpression
           sampleModel 0 (q 1 2) (sampleEntry true));
    [split; vm_compute; discriminate | exact sampleModel_valuesInRange].
Defined.

Lemma applyExpressionParameter_zero m p :
  valuesInRange m →
  applyExpressionParameter 0 m p = (getParameterIndex m (parameterId p)).2.
Proof.
  intros Hin. pose proof (getParameterIndex_valuesInRange m
                            (parameterId p) Hin) as Hin1.
  unfold applyExpressionParameter, addParameterValueById,
    multiplyParameterValueById, setParameterValueById.
  destruct (getParameterIndex m (parameterId p)) as [i m1]. simpl in *.
  destruct (zero_weight_writes m1 i (value p)) as [Hset Hrest].
  destruct (Hrest Hin1) as [Hadd Hmul].
  by destruct (blendType p).
Qed.

(** X15: with weight [0], [doUpdateParameters] only resolves the
    identifiers of the expression, in order: it writes no parameter value
    (the stored real values being inside their ranges). *)
Theorem doUpdateParameters_zero_weight
    (self : CubismExpressionMotion) (model : CubismModel)
    (userTimeSeconds : number) (entry : CubismMotionQueueEntry) :
  valuesInRange model →
  doUpdateParameters self model userTimeSeconds 0 entry
  = resolveAll model (parameterId <$> _parameters self)
  ∧ _parameterValues (doUpdateParameters self model userTimeSeconds 0 entry)
    = _parameterValues model.
Proof.
  unfold doUpdateParameters, resolveAll. generalize (_parameters self).
  intros ps. revert model. induction ps as [|p ps IH]; intros m Hin; [done|].
  simpl. rewrite applyExpressionParameter_zero by done.
  destruct (IH (getParameterIndex m (parameterId p)).2) as [IH1 IH2].
  { by apply getParameterIndex_valuesInRange. }
  split; [exact IH1|]. rewrite IH2. apply getParameterIndex_values.
Qed.

Lemma doUpdateParameters_zero_weight_witness :
  _parameterValues
    (doUpdateParameters overwriteExpression sampleModel 0 0 (sampleEntry true))
  = _parameterValues sampleModel.
Proof.
  exact (proj2 (doUpdateParameters_zero_weight overwriteExpression
                  sampleModel 0 (sampleEntry true)
                  sampleModel_valuesInRange)).
Defined.

(** ** What the blend step leaves alone *)

Lemma blendEntries_ids self idx m values :
  epv_parameterId <$> (blendEntries self idx m values).2
  = epv_parameterId <$> values.
Proof.
  revert m. induction values as [|e rest IH]; intros m; [done|]. simpl.
  assert (He : epv_parameterId (blendEntry self idx m e).2 = epv_parameterId e).
  { unfold blendEntry. destruct (epv_parameterId e) as [id|] eqn:Hid;
      [|done]. destruct (getParameterValueById m id) as [cur m']. simpl.
    unfold blendChannels.
    destruct (findExpressionParameter id _) as [p|];
      [destruct (newValues p cur) as [[? ?] ?]|]; by case_bool_decide. }
  destruct (blendEntry self idx m e) as [m1 e']. simpl in He.
  specialize (IH m1). destruct (blendEntries self idx m1 rest) as [m2 rest'].
  simpl in *. by f_equal.
Qed.

Lemma blendEntries_model self idx m values :
  (blendEntries self idx m values).1
  = resolveAll m (omap epv_parameterId values).
Proof.
  revert m. induction values as [|e rest IH]; intros m; [done|]. simpl.
  assert (Hm : (blendEntry self idx m e).1
               = match epv_parameterId e with
                 | Some id => (getParameterIndex m id).2
                 | None => m
                 end).
  { unfold blendEntry, getParameterValueById.
    destruct (epv_parameterId e) as [id|]; [|done].
    by destruct (getParameterIndex m id). }
  destruct (blendEntry self idx m e) as [m1 e']. simpl in Hm. subst m1.
  specialize (IH (match epv_parameterId e with
                  | Some id => (getParameterIndex m id).2
                  | None => m
                  end)).
  destruct (blendEntries self idx _ rest) as [m2 rest']. simpl in *.
  rewrite IH. by destruct (epv_parameterId e).
Qed.

Lemma resolveAll_values ids m :
  _parameterValues (resolveAll m ids) = _parameterValues m
  ∧ _savedParameters (resolveAll m ids) = _savedParameters m.
Proof.
  revert m. induction ids as [|id ids IH]; intros m; [done|]. simpl.
  destruct (IH (getParameterIndex m id).2) as [-> ->].
  split; [apply getParameterIndex_values|].
  unfold getParameterIndex. destruct (scanIds _ _ _ _); [done|].
  by destruct (_notExistParameterId m !! id).
Qed.

Lemma resolveAll_wf ids m : wf_model m → wf_model (resolveAll m ids).
Proof.
  revert m. induction ids as [|id ids IH]; intros m Hwf; [done|].
  simpl. apply IH. by apply getParameterIndex_wf.
Qed.

Lemma resolveAll_sameReads ids m :
  wf_model m → sameReads m (resolveAll m ids).
Proof.
  intros Hwf. assert (H : ∀ m1, wf_model m1 → sameReads m m1 →
                                sameReads m (resolveAll m1 ids)).
  { induction ids as [|id ids IH]; intros m1 Hwf1 Hr; [done|]. simpl.
    apply IH; [by apply getParameterIndex_wf | by apply sameReads_step]. }
  apply H; [done | apply sameReads_refl].
Qed.

Section BlendingFrame.

Variable getDuration : CubismExpressionMotion → number.
Variable updateFadeWeight :
  CubismExpressionMotion → CubismMotionQueueEntry → number →
  number * CubismMotionQueueEntry.

Abbreviation calc :=
  (calculateExpressionParameters getDuration updateFadeWeight).

Lemma calc_model self model t entry values idx :
  isAvailable entry = true →
  frame_model (calc self model t entry values idx)
  = resolveAll model (omap epv_parameterId values).
Proof.
  intros Hav. unfold calculateExpressionParameters. rewrite Hav. simpl.
  destruct (updateFadeWeight self _ t) as [w e'].
  pose proof (blendEntries_model (setFadeWeight self w) idx model values)
    as Hm.
  by destruct (blendEntries _ idx model values) as [m' vs].
Qed.

Lemma calc_entry self model t entry values idx :
  isAvailable entry = true →
  frame_entry (calc self model t entry values idx)
  = (updateFadeWeight self (startEntry getDuration self t entry) t).2.
Proof.
  intros Hav. unfold calculateExpressionParameters. rewrite Hav. simpl.
  destruct (updateFadeWeight self _ t) as [w e'].
  by destruct (blendEntries _ idx model values) as [m' vs].
Qed.

(** X16: the call keeps the accumulator's shape: the entries come out in
    the same number and order and with the same identifiers, whatever the
    state of the instance. *)
Theorem calculateExpressionParameters_keeps_identifiers
    (self : CubismExpressionMotion) (model : CubismModel) (t : number)
    (entry : CubismMotionQueueEntry)
    (values : list ExpressionParameterValue) (idx : nat) :
  epv_parameterId <$> frame_values (calc self model t entry values idx)
  = epv_parameterId <$> values.
Proof.
  destruct (isAvailable entry) eqn:Hav.
  - unfold calculateExpressionParameters. rewrite Hav. simpl.
    destruct (updateFadeWeight self _ t) as [w e'].
    pose proof (blendEntries_ids (setFadeWeight self w) idx model values)
      as Hids.
    by destruct (blendEntries _ idx model values) as [m' vs].
  - unfold calculateExpressionParameters. by rewrite Hav.
Qed.

(** X17: the only effect of the call on the model is that the identifiers
    of the accumulator entries are resolved, in order: no parameter value
    and no snapshot entry is written, and on a well-formed model every read
    by identifier answers afterwards as it did before. *)
Theorem calculateExpressionParameters_only_resolves
    (self : CubismExpressionMotion) (model : CubismModel) (t : number)
    (entry : CubismMotionQueueEntry)
    (values : list ExpressionParameterValue) (idx : nat) :
  isAvailable entry = true →
  let model' := frame_model (calc self model t entry values idx) in
  model' = resolveAll model (omap epv_parameterId values)
  ∧ _parameterValues model' = _parameterValues model
  ∧ _savedParameters model' = _savedParameters model
  ∧ (wf_model model → wf_model model' ∧ sameReads model model').
Proof.
  intros Hav model'. subst model'. rewrite calc_model by done.
  destruct (resolveAll_values (omap epv_parameterId values) model)
    as [Hv Hs].
  split; [done|]. split; [done|]. split; [done|]. intros Hwf.
  split; [by apply resolveAll_wf | by apply resolveAll_sameReads].
Qed.

(** X18: the start-up block runs once.  For an available instance that has
    not started, and a timing collaborator that leaves the instance's five
    fields alone, the first call marks the instance started, records the
    start time [t - offset] and the fade-in start [t], and sets the end time
    only if none was set: to [-1] for a duration [<= 0] and to
    [start + duration] otherwise.  A second call, at any later time, leaves
    the instance as the first call left it. *)
Theorem calculateExpressionParameters_starts_once
    (self : CubismExpressionMotion) (model : CubismModel) (t t' : number)
    (entry : CubismMotionQueueEntry)
    (values : list ExpressionParameterValue) (idx idx' : nat) :
  (∀ s e u, (updateFadeWeight s e u).2 = e) →
  isAvailable entry = true →
  isStarted entry = false →
  let F := calc self model t entry values idx in
  let F' := calc (frame_motion F) (frame_model F) t' (frame_entry F)
              (frame_values F) idx' in
  isAvailable (frame_entry F) = true
  ∧ isStarted (frame_entry F) = true
  ∧ getStartTime (frame_entry F) = t - _offsetSeconds self
  ∧ _fadeInStartTimeSeconds (frame_entry F) = t
  ∧ (getEndTime entry < 0 → getDuration self ≤ 0 →
     getEndTime (frame_entry F) = - 1)
  ∧ (getEndTime entry < 0 → ¬ getDuration self ≤ 0 →
     getEndTime (frame_entry F) = t - _offsetSeconds self + getDuration self)
  ∧ (¬ getEndTime entry < 0 →
     getEndTime (frame_entry F) = getEndTime entry)
  ∧ frame_entry F' = frame_entry F.
Proof.
  intros Hfade Hav Hst F F'.
  assert (HF : frame_entry F = startEntry getDuration self t entry).
  { subst F. rewrite calc_entry by done. apply Hfade. }
  assert (Hav1 : isAvailable (startEntry getDuration self t entry) = true).
  { unfold startEntry. rewrite Hst. simpl. by case_match. }
  assert (Hst1 : isStarted (startEntry getDuration self t entry) = true).
  { unfold startEntry. rewrite Hst. simpl. by case_match. }
  assert (HF' : frame_entry F' = frame_entry F).
  { subst F'. rewrite calc_entry by (by rewrite HF). rewrite Hfade.
    unfold startEntry at 1. by rewrite HF, Hst1. }
  rewrite HF' , HF. clear HF HF' F F'.
  unfold startEntry, num_ltb. rewrite Hst. simpl.
  repeat split; try (by case_match).
  - intros Hend Hdur.
    by rewrite bool_decide_eq_true_2, bool_decide_eq_true_2.
  - intros Hend Hdur.
    by rewrite bool_decide_eq_true_2, bool_decide_eq_false_2.
  - intros Hend. by rewrite bool_decide_eq_false_2.
Qed.

End BlendingFrame.

Lemma calculateExpressionParameters_only_resolves_witness :
  _parameterValues
    (frame_model
       (calculateExpressionParameters noDuration (constantFade (q 3 10))
          overwriteExpression sampleModel 0 (sampleEntry true) sampleValues 1))
  = _parameterValues sampleModel.
Proof.
  destruct (calculateExpressionParameters_only_resolves noDuration
              (constantFade (q 3 10)) overwriteExpression sampleModel 0
              (sampleEntry true) sampleValues 1 eq_refl) as (_ & H & _).
  exact H.
Defined.

Lemma calculateExpressionParameters_starts_once_witness :
  getEndTime
    (frame_entry
       (calculateExpressionParameters noDuration (constantFade (q 3 10))
          overwriteExpression sampleModel (q 2 1) (sampleEntry true)
          sampleValues 0))
  = - 1.
Proof.
  destruct (calculateExpressionParameters_starts_once noDuration
              (constantFade (q 3 10)) overwriteExpression sampleModel
              (q 2 1) (q 3 1) (sampleEntry true) sampleValues 0 1
              (λ _ _ _, eq_refl) eq_refl eq_refl)
    as (_ & _ & _ & _ & Hend & _).
  apply Hend; vm_compute; [reflexivity | discriminate].
Defined.

(** ** More on loading a Moc *)

Section MocOutcomes.

Variable CoreMoc : Type.
Variable core_hasMocConsistency : list Byte.byte → Z.
Variable core_fromArrayBuffer : list Byte.byte → option CoreMoc.
Variable core_csmGetMocVersion : CoreMoc → list Byte.byte → Z.
Variable core_fromMoc : CoreMoc → option CoreModel.

(** X19: whenever [create] returns, the result wraps the Moc the core
    loaded from the payload, counts no model, and, if the check was
    requested, the payload passed it; when the core loads nothing and the
    check passed or was not requested, [create] throws its own error.
    Without the check, the consistency function plays no part. *)
Theorem create_outcomes
    (mocBytes : list Byte.byte) (shouldCheckMocConsistency : bool) :
  (∀ cubismMoc,
     CubismMoc_create CoreMoc core_hasMocConsistency core_fromArrayBuffer
       core_csmGetMocVersion mocBytes shouldCheckMocConsistency
     = Returns cubismMoc →
     core_fromArrayBuffer mocBytes = Some (_moc CoreMoc cubismMoc)
     ∧ _modelCount CoreMoc cubismMoc = 0%Z
     ∧ (shouldCheckMocConsistency = true →
        core_hasMocConsistency mocBytes = 1%Z))
  ∧ (core_fromArrayBuffer mocBytes = None →
     shouldCheckMocConsistency = false
     ∨ core_hasMocConsistency mocBytes = 1%Z →
     CubismMoc_create CoreMoc core_hasMocConsistency core_fromArrayBuffer
       core_csmGetMocVersion mocBytes shouldCheckMocConsistency
     = Throws "Failed to CubismMoc.create().")
  ∧ (∀ other_hasMocConsistency,
       CubismMoc_create CoreMoc other_hasMocConsistency core_fromArrayBuffer
         core_csmGetMocVersion mocBytes false
       = CubismMoc_create CoreMoc core_hasMocConsistency core_fromArrayBuffer
           core_csmGetMocVersion mocBytes false).
Proof.
  unfold CubismMoc_create, hasMocConsistency. repeat split.
  - destruct shouldCheckMocConsistency; simpl in *;
      repeat case_bool_decide; simpl in *; try done;
      destruct (core_fromArrayBuffer mocBytes); by simplify_eq.
  - destruct shouldCheckMocConsistency; simpl in *;
      repeat case_bool_decide; simpl in *; try done;
      destruct (core_fromArrayBuffer mocBytes); by simplify_eq.
  - intros ->. simpl in *. case_bool_decide; [done|]. simpl in *. done.
  - intros Hload Hcheck. rewrite Hload.
    destruct Hcheck as [-> | Hc]; [done|].
    rewrite bool_decide_eq_true_2 by done. simpl. by rewrite andb_false_r.
Qed.

(** X20: [createModel] throws when the core yields no model and leaves the
    Moc alone; otherwise it returns a freshly initialised model and counts
    it, and deleting a model (any that is not [null]) undoes the count. *)
Theorem createModel_counts_models (self : CubismMoc CoreMoc) :
  (core_fromMoc (_moc CoreMoc self) = None →
   createModel CoreMoc core_fromMoc self = Throws "Unknown error")
  ∧ (∀ core, core_fromMoc (_moc CoreMoc self) = Some core →
     ∃ self',
       createModel CoreMoc core_fromMoc self
       = Returns (newCubismModel core, self')
       ∧ _modelCount CoreMoc self' = (_modelCount CoreMoc self + 1)%Z
       ∧ deleteModel CoreMoc self' (Some (newCubismModel core)) = self)
  ∧ deleteModel CoreMoc self None = self.
Proof.
  unfold createModel, deleteModel. repeat split.
  - by intros ->.
  - intros core ->. eexists. repeat split. simpl.
    destruct self as [moc count version]. simpl. f_equal. lia.
Qed.

End MocOutcomes.

Lemma create_outcomes_witness :
  CubismMoc_create nat sample_hasMocConsistency sample_fromArrayBuffer
    sample_csmGetMocVersion [] false
  = Throws "Failed to CubismMoc.create().".
Proof.
  destruct (create_outcomes nat sample_hasMocConsistency
              sample_fromArrayBuffer sample_csmGetMocVersion [] false)
    as (_ & H & _).
  exact (H eq_refl (or_introl eq_refl)).
Defined.

Lemma createModel_counts_models_witness :
  createModel nat sample_fromMoc (mkCubismMoc nat 0%nat 0%Z 3%Z)
  = Throws "Unknown error"
  ∧ ∃ self',
      createModel nat sample_fromMoc (mkCubismMoc nat 2%nat 0%Z 3%Z)
      = Returns (sampleModel, self')
      ∧ _modelCount nat self' = 1%Z.
Proof.
  split.
  - destruct (createModel_counts_models nat sample_fromMoc
                (mkCubismMoc nat 0%nat 0%Z 3%Z)) as (H & _).
    exact (H eq_refl).
  - destruct (createModel_counts_models nat sample_fromMoc
                (mkCubismMoc nat 2%nat 0%Z 3%Z)) as (_ & H & _).
    destruct (H sampleCore eq_refl) as (self' & Hc & Hn & _).
    exists self'. split; [exact Hc | exact Hn].
Defined.

(** ** Drawable identifiers *)

(** X21: [getDrawableIndex] returns [-1] exactly when the identifier is not
    among the model's drawables; otherwise it returns the first position
    of the identifier.  Unlike the parameter and part lookups, it has no
    shadow table to fall back on. *)
Theorem getDrawableIndex_spec (m : CubismModel) (drawableId : string) :
  (getDrawableIndex m drawableId = (-1)%Z ↔
   ∀ j, (j < drawables_count (_model m))%nat →
        _drawableIds m !! j ≠ Some drawableId)
  ∧ (∀ i : nat,
       getDrawableIndex m drawableId = Z.of_nat i ↔
       (i < drawables_count (_model m))%nat
       ∧ _drawableIds m !! i = Some drawableId
       ∧ ∀ j, (j < i)%nat → _drawableIds m !! j ≠ Some drawableId).
Proof.
  unfold getDrawableIndex.
  destruct (scanIds drawableId (_drawableIds m) (drawables_count (_model m)) 0)
    as [k|] eqn:Hscan.
  - destruct (scanIds_Some _ _ _ _ _ Hscan) as (j & -> & Hj & Hid & Hfirst).
    simpl. split.
    + split; [lia|]. intros H. by destruct (H j Hj).
    + intros i. split.
      * intros Hi. assert (i = j) as -> by lia. done.
      * intros (Hi & Hidi & Hfi). f_equal.
        destruct (Nat.lt_trichotomy i j) as [Hlt | [-> | Hgt]]; [|done|].
        -- by destruct (Hfirst i Hlt).
        -- by destruct (Hfi j Hgt).
  - pose proof Hscan as Hnone. rewrite scanIds_None in Hnone. split.
    + done.
    + intros i. split; [lia|]. intros (Hi & Hidi & _).
      by destruct (Hnone i Hi).
Qed.
